(** * Cosine-distance concentration: a model of the Monte Carlo engine

    This development embeds the computational core of
    [src/ArtifactCode.jsx] (the component that samples random unit
    vectors, measures their cosine distances, rescales them and bins
    them into histograms) and states the properties of the engine
    against that embedding.

    Numbers.  A JavaScript number is modelled as an exact real extended
    with [+Infinity], [-Infinity] and [NaN]: rounding is not modelled, so
    every statement below is a statement in exact arithmetic.  The two
    zeros are not distinguished (a zero divisor is taken as [+0]).
    A question that rounding decides (whether a variate or a raw norm
    is exactly zero, in which bin a value next to a bin edge falls,
    whether two rescaled distances differ) is not settled by a statement
    over exact reals, and the properties below are kept clear of such
    questions.  [Module Binary64] embeds the rescaling of a distance
    over binary64 values, where a question of this kind is settled by
    evaluation.

    Randomness.  [Math.random()] reads the next value of a tape of draws
    that is threaded through the code; a computation that needs more
    draws than the tape holds has no result ([None]).

    Exceptions.  A call completes normally with a value or abruptly with
    an error, as in ECMAScript completion records. *)

From Stdlib Require Import String.
From Stdlib Require Import Reals Lra Lia ZArith List Bool Arith Zfloor Sorted.
From Stdlib Require PrimFloat Uint63.
Import ListNotations.
Local Open Scope R_scope.

(** ** JavaScript numbers *)

Module JS.

Inductive number : Type :=
| Fin (r : R)
| PInf
| NInf
| NaN.

Inductive sign : Type := Neg | Zero | Pos.

Definition sgn (x : R) : sign :=
  match total_order_T x 0 with
  | inleft (left _) => Neg
  | inleft (right _) => Zero
  | inright _ => Pos
  end.

(** The infinity of a given sign; [0 * Infinity] and [0 / 0] are [NaN]. *)
Definition inf_of (s : sign) : number :=
  match s with Neg => NInf | Zero => NaN | Pos => PInf end.

Definition neg (a : number) : number :=
  match a with
  | Fin x => Fin (- x)
  | PInf => NInf
  | NInf => PInf
  | NaN => NaN
  end.

Definition add (a b : number) : number :=
  match a, b with
  | Fin x, Fin y => Fin (x + y)
  | NaN, _ | _, NaN => NaN
  | PInf, NInf | NInf, PInf => NaN
  | PInf, _ | _, PInf => PInf
  | NInf, _ | _, NInf => NInf
  end.

Definition sub (a b : number) : number := add a (neg b).

Definition mul (a b : number) : number :=
  match a, b with
  | Fin x, Fin y => Fin (x * y)
  | NaN, _ | _, NaN => NaN
  | PInf, Fin y | Fin y, PInf => inf_of (sgn y)
  | NInf, Fin y | Fin y, NInf => inf_of (sgn (- y))
  | PInf, PInf | NInf, NInf => PInf
  | PInf, NInf | NInf, PInf => NInf
  end.

Definition div (a b : number) : number :=
  match a, b with
  | Fin x, Fin y =>
      match sgn y with
      | Zero => inf_of (sgn x)
      | _ => Fin (x / y)
      end
  | NaN, _ | _, NaN => NaN
  | Fin _, PInf | Fin _, NInf => Fin 0
  | PInf, Fin y => match sgn y with Neg => NInf | _ => PInf end
  | NInf, Fin y => match sgn y with Neg => PInf | _ => NInf end
  | _, _ => NaN
  end.

(** [Math.sqrt], [Math.log], [Math.cos], [Math.floor]. *)
Definition sqrt (a : number) : number :=
  match a with
  | Fin x => match sgn x with Neg => NaN | _ => Fin (R_sqrt.sqrt x) end
  | PInf => PInf
  | NInf | NaN => NaN
  end.

Definition log (a : number) : number :=
  match a with
  | Fin x => match sgn x with Neg => NaN | Zero => NInf | Pos => Fin (ln x) end
  | PInf => PInf
  | NInf | NaN => NaN
  end.

Definition cos (a : number) : number :=
  match a with
  | Fin x => Fin (Rtrigo_def.cos x)
  | _ => NaN
  end.

Definition floor (a : number) : number :=
  match a with
  | Fin x => Fin (IZR (Zfloor x))
  | other => other
  end.

(** The comparisons [a <= b] and [a < b]; both are false on [NaN]. *)
Definition leb (a b : number) : bool :=
  match a, b with
  | Fin x, Fin y => if Rle_dec x y then true else false
  | NaN, _ | _, NaN => false
  | NInf, _ | _, PInf => true
  | _, _ => false
  end.

Definition ltb (a b : number) : bool :=
  match a, b with
  | Fin x, Fin y => if Rlt_dec x y then true else false
  | NaN, _ | _, NaN => false
  | PInf, _ | _, NInf => false
  | _, _ => true
  end.

(** [Math.max] and [Math.min] of two arguments. *)
Definition max (a b : number) : number :=
  match a, b with
  | NaN, _ | _, NaN => NaN
  | _, _ => if leb a b then b else a
  end.

Definition min (a b : number) : number :=
  match a, b with
  | NaN, _ | _, NaN => NaN
  | _, _ => if leb a b then a else b
  end.

Definition of_nat (n : nat) : number := Fin (INR n).
Definition of_Z (z : Z) : number := Fin (IZR z).

(** The array index denoted by a number that is a non-negative integer. *)
Definition index (a : number) : nat :=
  match a with
  | Fin x => Z.to_nat (Zfloor x)
  | _ => O
  end.

(** Arrays of numbers.  Reading past the end yields [undefined], which
    arithmetic coerces to [NaN]. *)
Definition get (v : list number) (i : nat) : number := nth i v NaN.

(** [v[i] = x].  Within the array the slot is overwritten; at or past
    the end the array grows, the skipped slots being holes (read back
    as [NaN]). *)
Fixpoint set (v : list number) (i : nat) (x : number) : list number :=
  match v, i with
  | _ :: t, O => x :: t
  | h :: t, S k => h :: set t k x
  | [], O => [x]
  | [], S k => NaN :: set [] k x
  end.

End JS.

Abbreviation number := JS.number.
Abbreviation Fin := JS.Fin.
Abbreviation PInf := JS.PInf.
Abbreviation NInf := JS.NInf.
Abbreviation NaN := JS.NaN.

(** ** Completions and the random tape *)

(** The four error kinds named by the specification, and the
    [TypeError] raised by the language itself when a property of
    [undefined] is read. *)
Inductive Error : Type :=
| DimensionMismatch
| InvalidSampleSize
| InsufficientSamples
| Cancelled
| TypeError.

Inductive completion (A : Type) : Type :=
| Normal (a : A)
| Abrupt (e : Error).
Arguments Normal {A} a.
Arguments Abrupt {A} e.

Definition tape : Type := list R.

Definition M (A : Type) : Type := tape -> option (completion A * tape).

Definition ret {A} (a : A) : M A := fun t => Some (Normal a, t).

Definition bind {A B} (m : M A) (f : A -> M B) : M B :=
  fun t =>
    match m t with
    | None => None
    | Some (Abrupt e, t') => Some (Abrupt e, t')
    | Some (Normal a, t') => f a t'
    end.

Definition lift {A} (c : completion A) : M A := fun t => Some (c, t).

Notation "x <- m ;; k" := (bind m (fun x => k))
  (at level 61, m at next level, right associativity).

(** [for (let i = start; i < start + n; i++) s = body(i, s)]. *)
Fixpoint for_range {S : Type} (start n : nat) (body : nat -> S -> M S)
  (s : S) : M S :=
  match n with
  | O => ret s
  | Datatypes.S k =>
      s' <- body start s ;; for_range (Datatypes.S start) k body s'
  end.

(** ** The sampler *)

(** [let u = 0; while (u === 0) u = Math.random();] *)
Fixpoint redraw (t : tape) : option (completion R * tape) :=
  match t with
  | [] => None
  | x :: t' => if Req_dec_T x 0 then redraw t' else Some (Normal x, t')
  end.

Definition boxMuller (u v : R) : number :=
  JS.mul (JS.sqrt (JS.mul (Fin (-2)) (JS.log (Fin u))))
      (JS.cos (JS.mul (JS.mul (Fin 2) (Fin PI)) (Fin v))).

Definition normalRandom : M number :=
  u <- redraw ;;
  v <- redraw ;;
  ret (boxMuller u v).

(** The first loop of [generateRandomUnitVector]: push a variate and
    add its square to [sumSquared]. *)
Definition fillStep (_ : nat) (st : list number * number)
  : M (list number * number) :=
  val <- normalRandom ;;
  ret (fst st ++ [val], JS.add (snd st) (JS.mul val val)).

(** The second loop: [vector[i] /= magnitude]. *)
Definition scaleLoop (dimension : nat) (magnitude : number)
  (vector : list number) : list number :=
  fold_left (fun vec i => JS.set vec i (JS.div (JS.get vec i) magnitude))
            (seq 0 dimension) vector.

Definition generateRandomUnitVector (dimension : nat) : M (list number) :=
  st <- for_range 0 dimension fillStep ([], Fin 0) ;;
  let magnitude := JS.sqrt (snd st) in
  ret (scaleLoop dimension magnitude (fst st)).

(** ** The distance *)

Definition dotLoop (vec1 vec2 : list number) : number :=
  fold_left
    (fun dotProduct i =>
       JS.add dotProduct (JS.mul (JS.get vec1 i) (JS.get vec2 i)))
    (seq 0 (length vec1)) (Fin 0).

Definition calculateCosineDistance (vec1 vec2 : list number)
  : completion number :=
  Normal (JS.sub (Fin 1) (dotLoop vec1 vec2)).

(** ** One dimension of the simulation *)

Record Sample : Type := mkSample {
  originalDistance : number;
  normalizedDistance : number
}.

(** The mutable locals of one pass over a dimension. *)
Record Pass : Type := mkPass {
  samples : list Sample;
  sumDistances : number;
  sumSquaredDistances : number
}.

Definition emptyPass : Pass := mkPass [] (Fin 0) (Fin 0).

(** [Math.max(0, Math.min(2, originalDistance))]. *)
Definition clampDistance (originalDistance : number) : number :=
  JS.max (Fin 0) (JS.min (Fin 2) originalDistance).

(** The two lines that rescale a clamped distance; they are written
    inline in the innermost loop. *)
Definition scalingFactor (dim : nat) : number :=
  if (dim <=? 3)%nat
  then JS.mul (JS.sqrt (JS.of_nat dim)) (Fin 1.5)
  else JS.sqrt (JS.of_nat dim).

Definition normalize (clampedDistance : number) (dim : nat) : number :=
  JS.add (JS.mul (JS.sub clampedDistance (Fin 1)) (scalingFactor dim)) (Fin 1).

(** What is done with one distance: clamp, rescale, store, accumulate. *)
Definition record (dim : nat) (originalDistance : number) (st : Pass) : Pass :=
  let clampedDistance := clampDistance originalDistance in
  let normalizedDistance := normalize clampedDistance dim in
  mkPass (samples st ++ [mkSample clampedDistance normalizedDistance])
         (JS.add (sumDistances st) clampedDistance)
         (JS.add (sumSquaredDistances st)
                 (JS.mul clampedDistance clampedDistance)).

(** The body of the innermost loop. *)
Definition drawSample (dim : nat) (st : Pass) : M Pass :=
  vector1 <- generateRandomUnitVector dim ;;
  vector2 <- generateRandomUnitVector dim ;;
  originalDistance <- lift (calculateCosineDistance vector1 vector2) ;;
  ret (record dim originalDistance st).

Definition batchSize : Z := 100.

(** [Math.ceil(sampleSize / batchSize)]. *)
Definition batches (sampleSize : Z) : Z :=
  Zceil (IZR sampleSize / IZR batchSize).

(** [Math.min(batchSize, sampleSize - batch * batchSize)]. *)
Definition currentBatchSize (sampleSize : Z) (batch : nat) : Z :=
  Z.min batchSize (sampleSize - Z.of_nat batch * batchSize).

(** The two nested loops that generate the samples of a dimension.  The
    [await] between batches hands control to the host and changes no
    local, so it leaves no trace here. *)
Definition samplingLoop (dim : nat) (sampleSize : Z) (st : Pass) : M Pass :=
  for_range 0 (Z.to_nat (batches sampleSize))
    (fun batch st =>
       for_range 0 (Z.to_nat (currentBatchSize sampleSize batch))
         (fun _ => drawSample dim) st)
    st.

Record DimensionRecord : Type := mkRecord {
  dimension : nat;
  originalMean : number;
  originalStd : number;
  normalizedMean : number;
  normalizedStd : number;
  theoreticalStd : number;
  ratio : number
}.

(** [values.reduce((sum, val) => sum + val, 0)]. *)
Definition sumOf (values : list number) : number :=
  fold_left JS.add values (Fin 0).

(** [values.reduce((sum, val) => sum + Math.pow(val - mean, 2), 0)];
    the square is written as a product. *)
Definition sumSquaredDeviations (mean : number) (values : list number)
  : number :=
  fold_left
    (fun sum val => JS.add sum (JS.mul (JS.sub val mean) (JS.sub val mean)))
    values (Fin 0).

(** The statistics computed once the samples of a dimension are in
    (inline in the loop over the dimensions). *)
Definition finalizeStatistics (dim : nat) (sampleSize : Z) (st : Pass)
  : completion DimensionRecord :=
  let originalMean := JS.div (sumDistances st) (JS.of_Z sampleSize) in
  let variance :=
    JS.sub (JS.div (sumSquaredDistances st) (JS.of_Z sampleSize))
           (JS.mul originalMean originalMean) in
  let originalStd := JS.sqrt variance in
  let theoreticalStd := JS.div (Fin 1) (JS.sqrt (JS.of_nat dim)) in
  let normalizedValues := map normalizedDistance (samples st) in
  let normalizedSum := sumOf normalizedValues in
  let normalizedMean :=
    JS.div normalizedSum (JS.of_nat (length normalizedValues)) in
  let normalizedSumSquared :=
    sumSquaredDeviations normalizedMean normalizedValues in
  let normalizedStd :=
    JS.sqrt (JS.div normalizedSumSquared
                    (JS.of_nat (length normalizedValues))) in
  Normal (mkRecord dim originalMean originalStd normalizedMean normalizedStd
                   theoreticalStd (JS.div originalStd theoreticalStd)).

(** ** The whole run *)

(** Objects keyed by dimension, as association lists. *)
Fixpoint assign {V : Type} (o : list (nat * V)) (k : nat) (v : V)
  : list (nat * V) :=
  match o with
  | [] => [(k, v)]
  | (k', v') :: rest =>
      if (k =? k')%nat then (k, v) :: rest else (k', v') :: assign rest k v
  end.

Fixpoint lookup {V : Type} (o : list (nat * V)) (k : nat) : option V :=
  match o with
  | [] => None
  | (k', v') :: rest => if (k =? k')%nat then Some v' else lookup rest k
  end.

Record SimulationData : Type := mkData {
  dataDimensions : list nat;
  statistics : list DimensionRecord;
  distributionSamples : list (nat * list Sample)
}.

Definition dimensions : list nat :=
  [2; 4; 8; 16; 32; 64; 128; 256; 512; 1024; 2048]%nat.

Definition getAdjustedSampleSize (dim : nat) : Z :=
  if (dim <=? 32)%nat then 10000%Z
  else if (dim <=? 256)%nat then 20000%Z
  else 50000%Z.

(** The body of the loop over the dimensions, for a list of dimensions
    and a sample-size function.  The progress message and the progress
    percentage that the loop also sets are display only and are left
    out. *)
Definition processDimension (dims : list nat) (sampleSizeOf : nat -> Z)
  (dimIndex : nat) (acc : list DimensionRecord * list (nat * list Sample))
  : M (list DimensionRecord * list (nat * list Sample)) :=
  let dim := nth dimIndex dims O in
  let sampleSize := sampleSizeOf dim in
  st <- samplingLoop dim sampleSize emptyPass ;;
  stats <- lift (finalizeStatistics dim sampleSize st) ;;
  ret (fst acc ++ [stats], assign (snd acc) dim (samples st)).

Definition simulate (dims : list nat) (sampleSizeOf : nat -> Z)
  : M SimulationData :=
  acc <- for_range 0 (length dims) (processDimension dims sampleSizeOf)
           ([], []) ;;
  ret (mkData dims (fst acc) (snd acc)).

(** The component state written by [generateSyntheticData]. *)
Record View : Type := mkView {
  data : option SimulationData;
  isLoading : bool
}.

(** [try { ... setData(...) } catch (error) { ... }]: an error leaves
    [data] at [null]. *)
Definition generateSyntheticData (t : tape) : option View :=
  match simulate dimensions getAdjustedSampleSize t with
  | None => None
  | Some (Normal d, _) => Some (mkView (Some d) false)
  | Some (Abrupt _, _) => Some (mkView None false)
  end.

(** ** Histograms *)

Module Histogram.

Record bin : Type := mkBin {
  x : number;
  count : number
}.

(** The callback of [values.forEach]: find the bin and increment it. *)
Definition countValue (min binSize : number) (binCount : nat)
  (bins : list number) (val : number) : list number :=
  let binIndex := JS.floor (JS.div (JS.sub val min) binSize) in
  if JS.leb (Fin 0) binIndex && JS.ltb binIndex (JS.of_nat binCount)
  then JS.set bins (JS.index binIndex)
              (JS.add (JS.get bins (JS.index binIndex)) (Fin 1))
  else bins.

Definition fillBins (min binSize : number) (binCount : nat)
  (values : list number) : list number :=
  fold_left (countValue min binSize binCount) values
            (repeat (Fin 0) binCount).

(** [bins.map((count, i) => ({ x: ..., count: ... }))]. *)
Definition toChart (min binSize : number) (total : nat)
  (bins : list number) : list bin :=
  map (fun ic : nat * number =>
         mkBin (JS.add min
                  (JS.mul (JS.add (JS.of_nat (fst ic)) (Fin 0.5)) binSize))
               (JS.div (JS.div (snd ic) (JS.of_nat total)) binSize))
      (combine (seq 0 (length bins)) bins).

(** The histogram of one dimension, for a domain and a number of bins. *)
Definition build (min max : number) (binCount : nat)
  (values : list number) (total : nat) : list bin :=
  let binSize := JS.div (JS.sub max min) (JS.of_nat binCount) in
  toChart min binSize total (fillBins min binSize binCount values).

(** The callback of [selectedDimensions.forEach]. *)
Definition ofSamples (normalized : bool) (samples : list Sample) : list bin :=
  let values :=
    map (fun s => if normalized then normalizedDistance s
                  else originalDistance s) samples in
  let min := if normalized then Fin (-2) else Fin 0 in
  let max := if normalized then Fin 4 else Fin 2 in
  let binCount := 40%nat in
  build min max binCount values (length samples).

Fixpoint forEachDimension (d : SimulationData) (normalized : bool)
  (selected : list nat) (histograms : list (nat * list bin))
  : completion (list (nat * list bin)) :=
  match selected with
  | [] => Normal histograms
  | dim :: rest =>
      match lookup (distributionSamples d) dim with
      | None => Abrupt TypeError
      | Some samples =>
          forEachDimension d normalized rest
            (assign histograms dim (ofSamples normalized samples))
      end
  end.

End Histogram.

(** [generateHistogramData(dimensionKey, normalized)]; the first
    argument is never read by the function and is left out. *)
Definition generateHistogramData (v : View) (selectedDimensions : list nat)
  (normalized : bool) : completion (list (nat * list Histogram.bin)) :=
  match data v with
  | None => Normal []
  | Some d => Histogram.forEachDimension d normalized selectedDimensions []
  end.

(** ** Reference definitions taken from the specification *)

(** The online accumulator of section 4.4 of the specification:
    running count, mean and sum of squared deviations, updated one
    observation at a time; the population variance is [M2 / n]. *)
Module Welford.

Record accumulator : Type := mkAcc {
  count : nat;
  mean : number;
  M2 : number
}.

Definition empty : accumulator := mkAcc 0 (Fin 0) (Fin 0).

Definition update (a : accumulator) (value : number) : accumulator :=
  let count' := S (count a) in
  let delta := JS.sub value (mean a) in
  let mean' := JS.add (mean a) (JS.div delta (JS.of_nat count')) in
  mkAcc count' mean' (JS.add (M2 a) (JS.mul delta (JS.sub value mean'))).

Definition updateAll (values : list number) : accumulator :=
  fold_left update values empty.

Definition finalize (a : accumulator) : completion (number * number) :=
  match count a with
  | O => Abrupt InsufficientSamples
  | _ => Normal (mean a, JS.sqrt (JS.div (M2 a) (JS.of_nat (count a))))
  end.

End Welford.

(** The single loop of [sampleSize] iterations that the batched loops
    are said to be equivalent to. *)
Definition unbatchedLoop (dim : nat) (sampleSize : Z) (st : Pass) : M Pass :=
  for_range 0 (Z.to_nat sampleSize) (fun _ => drawSample dim) st.

(** ** Auxiliary definitions used in the statements *)

(** The loop over indices, read off the two arrays from the front. *)
Fixpoint dotFrom (acc : number) (vec1 vec2 : list number) : number :=
  match vec1 with
  | [] => acc
  | a :: rest => dotFrom (JS.add acc (JS.mul a (hd NaN vec2))) rest (tl vec2)
  end.

(** The real dot product over the common prefix of two lists. *)
Fixpoint dotR (xs ys : list R) : R :=
  match xs, ys with
  | x :: xs', y :: ys' => x * y + dotR xs' ys'
  | _, _ => 0
  end.

Fixpoint sumSquares (xs : list R) : R :=
  match xs with
  | [] => 0
  | x :: xs' => x * x + sumSquares xs'
  end.

(** The factor [alpha] of section 4.3 of the specification. *)
Definition alpha (d : nat) : R := if (d <=? 3)%nat then 1.5 else 1.

(** The number of draws of a tape that are not zero, that is, that end
    a [while (u === 0)] loop. *)
Fixpoint nonzeroCount (t : tape) : nat :=
  match t with
  | [] => O
  | x :: rest =>
      if Req_dec_T x 0 then nonzeroCount rest else S (nonzeroCount rest)
  end.

(** The sizes of [n] consecutive batches starting at batch [k]. *)
Fixpoint batchTotal (size : nat -> nat) (k n : nat) : nat :=
  match n with
  | O => O
  | S n' => (size k + batchTotal size (S k) n')%nat
  end.

(** [Math.random()] returns values of the interval [0, 1). *)
Definition uniform (t : tape) : Prop := Forall (fun x => 0 <= x < 1) t.

(** [m] started on a tape with at least [cost] non-zero draws returns
    normally a value satisfying [Q] and consumes exactly [cost] non-zero
    draws. *)
Definition runs {A : Type} (m : M A) (cost : nat) (Q : A -> Prop) : Prop :=
  forall t : tape,
    uniform t ->
    (cost <= nonzeroCount t)%nat ->
    exists (a : A) (t' : tape),
      m t = Some (Normal a, t')
      /\ Q a
      /\ uniform t'
      /\ (nonzeroCount t' + cost = nonzeroCount t)%nat.

(** The Box-Muller variate as a real number. *)
Definition gaussian (u v : R) : R := sqrt (-2 * ln u) * cos (2 * PI * v).

(** Every normal result of [m] satisfies [Q]. *)
Definition ensures {A : Type} (m : M A) (Q : A -> Prop) : Prop :=
  forall (t t' : tape) (a : A), m t = Some (Normal a, t') -> Q a.

(** A normal variate drawn by [normalRandom]: both uniform draws that
    enter the transform are non-zero. *)
Definition variate (z : R) : Prop :=
  exists u v, 0 < u < 1 /\ 0 < v < 1 /\ z = gaussian u v.

(** A tape on which every draw is 1/2. *)
Definition halves (n : nat) : tape := repeat (1 / 2) n.

(** Sums, and the clamp and the rescaling on real numbers. *)
Fixpoint sumR (xs : list R) : R :=
  match xs with
  | [] => 0
  | x :: xs' => x + sumR xs'
  end.

Definition clampR (x : R) : R := Rmax 0 (Rmin 2 x).

Definition normR (dim : nat) (x : R) : R :=
  (x - 1) * sqrt (INR dim) * alpha dim + 1.

(** The sum of the squared deviations from [mu]. *)
Fixpoint devSquares (mu : R) (xs : list R) : R :=
  match xs with
  | [] => 0
  | x :: xs' => (x - mu) * (x - mu) + devSquares mu xs'
  end.

(** The pass after a sequence of distances has been recorded. *)
Definition recordAll (dim : nat) (distances : list number) (st : Pass) : Pass :=
  fold_left (fun s d => record dim d s) distances st.

(** The bin of a value, as the specification words it: the floor of
    [(value - domainMin) / binWidth] for a value of the domain, none for
    a value outside. *)
Definition binWidth (domainMin domainMax : R) (binCount : nat) : R :=
  (domainMax - domainMin) / INR binCount.

Definition binOf (domainMin domainMax : R) (binCount : nat) (value : R)
  : option nat :=
  if Rle_dec domainMin value then
    if Rlt_dec value domainMax then
      Some (Z.to_nat
              (Zfloor ((value - domainMin)
                       / binWidth domainMin domainMax binCount)))
    else None
  else None.

Definition inBin (domainMin domainMax : R) (binCount : nat) (i : nat)
  (value : R) : bool :=
  match binOf domainMin domainMax binCount value with
  | Some b => (b =? i)%nat
  | None => false
  end.

(** How many of the values fall into bin [i]. *)
Definition countAt (domainMin domainMax : R) (binCount : nat) (i : nat)
  (values : list R) : nat :=
  length (filter (inBin domainMin domainMax binCount i) values).

(** The sum over the bins of density times bin width. *)
Definition integral (binSize : number) (h : list Histogram.bin) : number :=
  fold_left
    (fun acc b => JS.add acc (JS.mul (Histogram.count b) binSize))
    h (Fin 0).

(** A stored distance that is within [0, 2], or is [NaN]. *)
Definition inRange (a : number) : Prop :=
  a = NaN \/ exists r, a = Fin r /\ 0 <= r <= 2.

(** ** The dimension selector *)

(** [[...selectedDimensions, dim].sort((a, b) => a - b)]: the numbers in
    ascending order. *)
Fixpoint insertAscending (d : nat) (l : list nat) : list nat :=
  match l with
  | [] => [d]
  | h :: rest =>
      if (d <=? h)%nat then d :: h :: rest else h :: insertAscending d rest
  end.

Definition sortAscending (l : list nat) : list nat :=
  fold_right insertAscending [] l.

(** [selectedDimensions.includes(dim)]. *)
Definition includes (l : list nat) (dim : nat) : bool :=
  existsb (Nat.eqb dim) l.

(** The [onClick] handler of a dimension button: the next value of
    [selectedDimensions]. *)
Definition toggleDimension (selectedDimensions : list nat) (dim : nat)
  : list nat :=
  if includes selectedDimensions dim
  then filter (fun d => negb (d =? dim)%nat) selectedDimensions
  else if (length selectedDimensions <? 4)%nat
       then sortAscending (selectedDimensions ++ [dim])
       else selectedDimensions.

(** ** Colours *)

Definition colorMap : list (nat * String.string) :=
  [ (2%nat, "#4F46E5"%string); (4%nat, "#7C3AED"%string);
    (8%nat, "#EC4899"%string); (16%nat, "#06B6D4"%string);
    (32%nat, "#10B981"%string); (64%nat, "#84CC16"%string);
    (128%nat, "#FBBF24"%string); (256%nat, "#F97316"%string);
    (512%nat, "#EF4444"%string); (1024%nat, "#6366F1"%string);
    (2048%nat, "#A855F7"%string) ].

(** [colorMap[dimension] || '#6B7280']: a missing key and an empty
    string both give the fallback. *)
Definition getDimensionColor (dimension : nat) : String.string :=
  match lookup colorMap dimension with
  | Some color =>
      if String.eqb color ""%string then "#6B7280"%string else color
  | None => "#6B7280"%string
  end.

(** ** The chart of standard deviations *)

Record StdDevRow : Type := mkRow {
  rowDimension : nat;
  empiricalStdDev : number;
  theoreticalStdDev : number
}.

(** [data.statistics.map(stat => ({ ... }))]. *)
Definition stdDevData (d : SimulationData) : list StdDevRow :=
  map (fun stat => mkRow (dimension stat) (originalStd stat)
                         (theoreticalStd stat))
      (statistics d).

(** ** The component that draws its samples from a formula

    The second component of the file synthesizes its data without
    sampling vectors: the statistics are the theoretical ones and each
    distance is [1 + z / sqrt dim] for a Box-Muller variate [z], clamped
    into [0, 2]. *)

(** [Math.random()]. *)
Definition random : M R :=
  fun t =>
    match t with
    | [] => None
    | x :: t' => Some (Normal x, t')
    end.

Module Formulaic.

Definition dimensions : list nat :=
  [2; 3; 5; 10; 32; 64; 128; 256; 512; 1024]%nat.

Definition sampleCount : nat := 1000.

(** The callback of [dimensions.map] that builds the statistics. *)
Definition statisticsOf (dim : nat) : DimensionRecord :=
  let theoreticalStd := JS.div (Fin 1) (JS.sqrt (JS.of_nat dim)) in
  mkRecord dim (Fin 1) theoreticalStd (Fin 1) (Fin 1) theoreticalStd (Fin 1).

(** The body of the loop that generates the samples of a dimension; the
    two uniform draws are used as they come. *)
Definition drawSample (dim : nat) (stdDev : number) (_ : nat)
  (samples : list Sample) : M (list Sample) :=
  u1 <- random ;;
  u2 <- random ;;
  let z := boxMuller u1 u2 in
  let originalDistance := JS.add (Fin 1) (JS.mul z stdDev) in
  let originalDistance := clampDistance originalDistance in
  let normalizedDistance := normalize originalDistance dim in
  ret (samples ++ [mkSample originalDistance normalizedDistance]).

(** The samples of one dimension, for a number of samples. *)
Definition samplesFor (count dim : nat) : M (list Sample) :=
  let stdDev := JS.div (Fin 1) (JS.sqrt (JS.of_nat dim)) in
  for_range 0 count (drawSample dim stdDev) [].

Fixpoint forEachDimension (count : nat) (dims : list nat)
  (distributionSamples : list (nat * list Sample))
  : M (list (nat * list Sample)) :=
  match dims with
  | [] => ret distributionSamples
  | dim :: rest =>
      samples <- samplesFor count dim ;;
      forEachDimension count rest (assign distributionSamples dim samples)
  end.

Definition generate (count : nat) (dims : list nat) : M SimulationData :=
  let statistics := map statisticsOf dims in
  distributionSamples <- forEachDimension count dims [] ;;
  ret (mkData dims statistics distributionSamples).

Definition generateSyntheticData : M SimulationData :=
  generate sampleCount dimensions.

(** The callback of [values.forEach] in the histogram of this
    component: the value is clamped into the domain before it is
    binned. *)
Definition countValue (min max binSize : number) (binCount : nat)
  (bins : list number) (val : number) : list number :=
  let clampedVal := JS.max min (JS.min (JS.sub max (Fin 0.001)) val) in
  let binIndex := JS.floor (JS.div (JS.sub clampedVal min) binSize) in
  if JS.leb (Fin 0) binIndex && JS.ltb binIndex (JS.of_nat binCount)
  then JS.set bins (JS.index binIndex)
              (JS.add (JS.get bins (JS.index binIndex)) (Fin 1))
  else bins.

(** The histogram of one dimension, for a domain and a number of bins. *)
Definition build (min max : number) (binCount : nat)
  (values : list number) (total : nat) : list Histogram.bin :=
  let binSize := JS.div (JS.sub max min) (JS.of_nat binCount) in
  let bins :=
    fold_left (countValue min max binSize binCount) values
              (repeat (Fin 0) binCount) in
  Histogram.toChart min binSize total bins.

(** The callback of [selectedDimensions.forEach]. *)
Definition ofSamples (normalized : bool) (samples : list Sample)
  : list Histogram.bin :=
  let values :=
    map (fun s => if normalized then normalizedDistance s
                  else originalDistance s) samples in
  let min := if normalized then Fin 0 else Fin 0 in
  let max := if normalized then Fin 2 else Fin 2 in
  let binCount := 40%nat in
  build min max binCount values (length samples).

End Formulaic.

(** ** Further definitions used in the statements *)

(** A tape without its zero draws. *)
Fixpoint dropZeros (t : tape) : tape :=
  match t with
  | [] => []
  | x :: rest =>
      if Req_dec_T x 0 then dropZeros rest else x :: dropZeros rest
  end.

(** Two runs of [m] on tapes that differ only in their zero draws end
    alike: both starve, or both complete in the same way and leave tapes
    that differ only in their zero draws. *)
Definition zeroBlind {A : Type} (m : M A) : Prop :=
  forall t1 t2 : tape,
    dropZeros t1 = dropZeros t2 ->
    match m t1, m t2 with
    | None, None => True
    | Some (c1, r1), Some (c2, r2) => c1 = c2 /\ dropZeros r1 = dropZeros r2
    | _, _ => False
    end.

(** The non-zero draws that a run over [dims] consumes: four for every
    coordinate of every sample. *)
Definition drawsNeeded (dims : list nat) (sampleSizeOf : nat -> Z) : nat :=
  list_sum
    (map (fun dim =>
            (Z.to_nat (sampleSizeOf dim) * (dim * 2 + (dim * 2 + 0)))%nat)
         dims).

(** Whether a value lies in the domain [lo, hi). *)
Definition inDomain (lo hi : R) (v : R) : bool :=
  if Rle_dec lo v then (if Rlt_dec v hi then true else false) else false.

(** Strictly ascending lists of dimensions. *)
Definition ascending (l : list nat) : Prop := StronglySorted lt l.

(** What one step of the loop over the dimensions adds. *)
Definition stepOutcome (dim : nat) (sampleSize : Z)
  (acc acc' : list DimensionRecord * list (nat * list Sample)) : Prop :=
  exists stats smp,
    acc' = (fst acc ++ [stats], assign (snd acc) dim smp)
    /\ dimension stats = dim
    /\ theoreticalStd stats = JS.div (Fin 1) (JS.sqrt (JS.of_nat dim))
    /\ length smp = Z.to_nat sampleSize
    /\ Forall (fun s => inRange (originalDistance s)) smp.

(** What the loop over the dimensions has built after [i] dimensions. *)
Definition runInvariant (dims : list nat) (sampleSizeOf : nat -> Z)
  (i : nat) (acc : list DimensionRecord * list (nat * list Sample)) : Prop :=
  map dimension (fst acc) = firstn i dims
  /\ Forall (fun stats =>
               theoreticalStd stats
               = JS.div (Fin 1) (JS.sqrt (JS.of_nat (dimension stats))))
            (fst acc)
  /\ (forall k, In k (firstn i dims) ->
        exists smp,
          lookup (snd acc) k = Some smp
          /\ length smp = Z.to_nat (sampleSizeOf k)
          /\ Forall (fun s => inRange (originalDistance s)) smp)
  /\ (forall k, ~ In k (firstn i dims) -> lookup (snd acc) k = None).

(** The clamp applied by the histogram of the formula-based component. *)
Definition clampInto (lo hi : R) (v : R) : R := Rmax lo (Rmin (hi - 0.001) v).

(** The distance that the formula-based component stores for the draws
    [u1] and [u2] in dimension [dim]. *)
Definition formulaDistance (dim : nat) (u1 u2 : R) : number :=
  clampDistance
    (JS.add (Fin 1)
       (JS.mul (boxMuller u1 u2)
               (JS.div (Fin 1) (JS.sqrt (JS.of_nat dim))))).

(** The distance of a sample as the sampling loop computes it: the call
    of [calculateCosineDistance] followed by the clamp of the next
    statement. *)
Definition clampedDistance (vector1 vector2 : list number)
  : completion number :=
  match calculateCosineDistance vector1 vector2 with
  | Normal originalDistance => Normal (clampDistance originalDistance)
  | Abrupt e => Abrupt e
  end.

(** ** The rescaling over binary64 values

    The two lines that rescale a clamped distance use a comparison, a
    square root, a multiplication, a subtraction and an addition; each
    is correctly rounded in IEEE 754 and is computed bit for bit by the
    primitive floats. *)

Module Binary64.

Import PrimFloat.

(** A dimension, which is a small integer, as a binary64 value. *)
Definition of_nat (n : nat) : float := of_uint63 (Uint63.of_Z (Z.of_nat n)).

Definition scalingFactor (dim : nat) : float :=
  if (dim <=? 3)%nat
  then (sqrt (of_nat dim) * 1.5)%float
  else sqrt (of_nat dim).

Definition normalize (clampedDistance : float) (dim : nat) : float :=
  ((clampedDistance - 1.0) * scalingFactor dim + 1.0)%float.

End Binary64.

(** * Properties *)

(** ** Arithmetic on finite numbers *)

Lemma sgn_pos (x : R) : 0 < x -> JS.sgn x = JS.Pos.
Proof.
  intros H. unfold JS.sgn.
  destruct (total_order_T x 0) as [[Hlt | Heq] | Hgt]; try reflexivity; lra.
Qed.

Lemma sgn_neg (x : R) : x < 0 -> JS.sgn x = JS.Neg.
Proof.
  intros H. unfold JS.sgn.
  destruct (total_order_T x 0) as [[Hlt | Heq] | Hgt]; try reflexivity; lra.
Qed.

Lemma sgn_zero (x : R) : x = 0 -> JS.sgn x = JS.Zero.
Proof.
  intros H. unfold JS.sgn.
  destruct (total_order_T x 0) as [[Hlt | Heq] | Hgt]; try reflexivity; lra.
Qed.

Lemma div_fin (x y : R) : y <> 0 -> JS.div (Fin x) (Fin y) = Fin (x / y).
Proof.
  intros H. simpl.
  destruct (Rdichotomy y 0 H) as [Hn | Hp].
  - now rewrite (sgn_neg y Hn).
  - now rewrite (sgn_pos y Hp).
Qed.

Lemma sqrt_fin (x : R) : 0 <= x -> JS.sqrt (Fin x) = Fin (sqrt x).
Proof.
  intros [Hp | Hz]; simpl.
  - now rewrite (sgn_pos x Hp).
  - now rewrite (sgn_zero x (eq_sym Hz)).
Qed.

Lemma log_fin (x : R) : 0 < x -> JS.log (Fin x) = Fin (ln x).
Proof. intros H. simpl. now rewrite (sgn_pos x H). Qed.

Lemma leb_fin (x y : R) : JS.leb (Fin x) (Fin y) = true <-> x <= y.
Proof. simpl. destruct (Rle_dec x y); split; intros; try easy. Qed.

Lemma ltb_fin (x y : R) : JS.ltb (Fin x) (Fin y) = true <-> x < y.
Proof. simpl. destruct (Rlt_dec x y); split; intros; try easy. Qed.

Lemma min_fin (x y : R) : JS.min (Fin x) (Fin y) = Fin (Rmin x y).
Proof.
  unfold JS.min, Rmin. simpl.
  destruct (Rle_dec x y); reflexivity.
Qed.

Lemma max_fin (x y : R) : JS.max (Fin x) (Fin y) = Fin (Rmax x y).
Proof.
  unfold JS.max, Rmax. simpl.
  destruct (Rle_dec x y); reflexivity.
Qed.

Lemma add_NaN_l (a : number) : JS.add NaN a = NaN.
Proof. now destruct a. Qed.

Lemma clampDistance_fin (x : R) :
  clampDistance (Fin x) = Fin (Rmax 0 (Rmin 2 x)).
Proof. unfold clampDistance. now rewrite min_fin, max_fin. Qed.

Lemma clamp_range (x : R) : 0 <= Rmax 0 (Rmin 2 x) <= 2.
Proof.
  unfold Rmax, Rmin.
  destruct (Rle_dec 2 x); destruct (Rle_dec 0 _); lra.
Qed.

(** ** The dot-product loop *)

Lemma fold_seq_shift {A : Type} (f : A -> nat -> A) (k n : nat) (acc : A) :
  fold_left f (seq (S k) n) acc
  = fold_left (fun a i => f a (S i)) (seq k n) acc.
Proof.
  rewrite <- seq_shift. revert acc.
  induction (seq k n) as [| i l IH]; intros acc; simpl;
    [reflexivity | apply IH].
Qed.

Lemma fold_left_pointwise {A B : Type} (f g : A -> B -> A) (l : list B)
  (acc : A) :
  (forall a b, f a b = g a b) -> fold_left f l acc = fold_left g l acc.
Proof.
  intros Hfg. revert acc.
  induction l as [| b l IH]; intros acc; simpl; [reflexivity |].
  now rewrite Hfg, IH.
Qed.

Lemma dotLoop_dotFrom (vec1 vec2 : list number) (acc : number) :
  fold_left
    (fun dotProduct i =>
       JS.add dotProduct (JS.mul (JS.get vec1 i) (JS.get vec2 i)))
    (seq 0 (length vec1)) acc
  = dotFrom acc vec1 vec2.
Proof.
  revert vec2 acc.
  induction vec1 as [| a rest IH]; intros vec2 acc; simpl; [reflexivity |].
  rewrite fold_seq_shift.
  destruct vec2 as [| b rest2]; simpl.
  - rewrite <- (IH [] _). apply fold_left_pointwise.
    intros d i. now destruct i.
  - now rewrite <- (IH rest2 _).
Qed.

Lemma dotFrom_NaN (vec1 vec2 : list number) : dotFrom NaN vec1 vec2 = NaN.
Proof.
  revert vec2. induction vec1 as [| a rest IH]; intros vec2;
    cbn [dotFrom]; [reflexivity |].
  rewrite add_NaN_l. apply IH.
Qed.

Lemma dotFrom_fin (xs ys : list R) (acc : R) :
  (length xs <= length ys)%nat ->
  dotFrom (Fin acc) (map Fin xs) (map Fin ys) = Fin (acc + dotR xs ys).
Proof.
  revert ys acc.
  induction xs as [| x xs IH]; intros ys acc Hlen; simpl.
  - f_equal. lra.
  - destruct ys as [| y ys]; simpl in *; [lia |].
    rewrite IH by lia. f_equal. lra.
Qed.

Lemma dotFrom_short (xs ys : list R) (acc : R) :
  (length ys < length xs)%nat ->
  dotFrom (Fin acc) (map Fin xs) (map Fin ys) = NaN.
Proof.
  revert ys acc.
  induction xs as [| x xs IH]; intros ys acc Hlen; simpl in *; [lia |].
  destruct ys as [| y ys]; simpl in *.
  - apply dotFrom_NaN.
  - apply IH. lia.
Qed.

Lemma distance_value (xs ys : list R) :
  calculateCosineDistance (map Fin xs) (map Fin ys)
  = Normal (if (length xs <=? length ys)%nat
            then Fin (1 - dotR xs ys) else NaN).
Proof.
  unfold calculateCosineDistance, dotLoop.
  rewrite dotLoop_dotFrom.
  destruct (Nat.leb_spec (length xs) (length ys)) as [Hle | Hlt].
  - rewrite dotFrom_fin by exact Hle. simpl. do 2 f_equal. lra.
  - now rewrite dotFrom_short by exact Hlt.
Qed.

Lemma clampDistance_cases (a : number) :
  clampDistance a = NaN \/
  exists r, clampDistance a = Fin r /\ 0 <= r <= 2.
Proof.
  destruct a as [x | | |].
  - right. exists (Rmax 0 (Rmin 2 x)).
    split; [apply clampDistance_fin | apply clamp_range].
  - right. exists 2. split; [| lra].
    unfold clampDistance. simpl. destruct (Rle_dec 0 2); [reflexivity | lra].
  - right. exists 0. split; [reflexivity | lra].
  - now left.
Qed.

Lemma clamp_idle (x : R) : 0 <= x <= 2 -> Rmax 0 (Rmin 2 x) = x.
Proof.
  intros H. unfold Rmax, Rmin.
  destruct (Rle_dec 2 x); destruct (Rle_dec 0 _); lra.
Qed.

(** ** The normalizer *)

Lemma scalingFactor_fin (d : nat) :
  scalingFactor d = Fin (sqrt (INR d) * alpha d).
Proof.
  unfold scalingFactor, alpha, JS.of_nat.
  rewrite sqrt_fin by apply pos_INR.
  destruct (d <=? 3)%nat; simpl; f_equal; lra.
Qed.

Lemma normalize_fin (x : R) (d : nat) :
  normalize (Fin x) d = Fin ((x - 1) * sqrt (INR d) * alpha d + 1).
Proof.
  unfold normalize. rewrite scalingFactor_fin. simpl. f_equal. ring.
Qed.


Lemma sqrt3_bounds : 1.732 < sqrt 3 < 1.7321.
Proof.
  assert (H3 : sqrt 3 * sqrt 3 = 3) by (apply sqrt_sqrt; lra).
  assert (Hp : 0 <= sqrt 3) by apply sqrt_pos.
  split; nra.
Qed.

Lemma sqrt4 : sqrt 4 = 2.
Proof.
  replace 4 with (2 * 2) by lra. apply sqrt_square. lra.
Qed.

(** ** Loops in the monad *)

Lemma bind_ext {A B : Type} (m : M A) (f g : A -> M B) (t : tape) :
  (forall a t', f a t' = g a t') -> bind m f t = bind m g t.
Proof.
  intros Hfg. unfold bind.
  destruct (m t) as [[[a | e] t'] |]; auto.
Qed.

Lemma bind_assoc {A B C : Type} (m : M A) (f : A -> M B) (g : B -> M C)
  (t : tape) :
  bind (bind m f) g t = bind m (fun a => bind (f a) g) t.
Proof.
  unfold bind. destruct (m t) as [[[a | e] t'] |]; reflexivity.
Qed.

Lemma for_range_split {S : Type} (body : nat -> S -> M S) (a b i : nat)
  (s : S) (t : tape) :
  for_range i (a + b) body s t
  = bind (for_range i a body s) (for_range (i + a) b body) t.
Proof.
  revert i s t.
  induction a as [| a IH]; intros i s t; simpl.
  - unfold bind, ret. now rewrite Nat.add_0_r.
  - rewrite bind_assoc. apply bind_ext. intros s' t'.
    rewrite IH. now rewrite Nat.add_succ_r.
Qed.

Lemma for_range_start {S : Type} (step : S -> M S) (i j n : nat) (s : S)
  (t : tape) :
  for_range i n (fun _ => step) s t = for_range j n (fun _ => step) s t.
Proof.
  revert i j s t.
  induction n as [| n IH]; intros i j s t; simpl; [reflexivity |].
  apply bind_ext. intros s' t'. apply IH.
Qed.

(** Nested loops whose inner body ignores both indices are one loop
    over the total of the inner counts. *)
Lemma nested_loops_flatten {S : Type} (step : S -> M S) (size : nat -> nat)
  (k n : nat) (s : S) (t : tape) :
  for_range k n
    (fun batch st => for_range 0 (size batch) (fun _ => step) st) s t
  = for_range 0 (batchTotal size k n) (fun _ => step) s t.
Proof.
  revert k s t.
  induction n as [| n IH]; intros k s t; simpl; [reflexivity |].
  rewrite for_range_split. apply bind_ext. intros s' t'.
  rewrite IH. apply for_range_start.
Qed.

(** ** The batch arithmetic *)

Lemma batches_bound (sampleSize : Z) :
  (100 * (batches sampleSize - 1) < sampleSize <= 100 * batches sampleSize)%Z.
Proof.
  unfold batches, batchSize.
  pose proof (Zceil_bound (IZR sampleSize / 100)) as [Hlo Hhi].
  set (c := Zceil (IZR sampleSize / 100)) in *.
  split.
  - apply lt_IZR. rewrite mult_IZR, minus_IZR. lra.
  - apply le_IZR. rewrite mult_IZR. lra.
Qed.

Lemma batchTotal_remaining (sampleSize : Z) (n k : nat) :
  (k + n)%nat = Z.to_nat (batches sampleSize) ->
  batchTotal (fun batch => Z.to_nat (currentBatchSize sampleSize batch)) k n
  = Z.to_nat (sampleSize - 100 * Z.of_nat k).
Proof.
  pose proof (batches_bound sampleSize) as Hb.
  revert k.
  induction n as [| n IH]; intros k Hk; cbn [batchTotal].
  - unfold currentBatchSize, batchSize in *. lia.
  - rewrite IH by lia.
    unfold currentBatchSize, batchSize in *. lia.
Qed.

Lemma batchTotal_all (sampleSize : Z) :
  batchTotal (fun batch => Z.to_nat (currentBatchSize sampleSize batch))
             0 (Z.to_nat (batches sampleSize))
  = Z.to_nat sampleSize.
Proof.
  rewrite batchTotal_remaining by reflexivity.
  f_equal. lia.
Qed.

Lemma samplingLoop_unbatched (dim : nat) (sampleSize : Z) (st : Pass)
  (t : tape) :
  samplingLoop dim sampleSize st t = unbatchedLoop dim sampleSize st t.
Proof.
  unfold samplingLoop, unbatchedLoop.
  rewrite (nested_loops_flatten (drawSample dim)
             (fun batch => Z.to_nat (currentBatchSize sampleSize batch))).
  now rewrite batchTotal_all.
Qed.

(** ** Runs that succeed *)

Lemma runs_ret {A : Type} (a : A) (Q : A -> Prop) : Q a -> runs (ret a) 0 Q.
Proof.
  intros Ha t Hu _. exists a, t. unfold ret.
  repeat split; auto; lia.
Qed.

Lemma runs_bind {A B : Type} (m : M A) (f : A -> M B) (k k' : nat)
  (P : A -> Prop) (Q : B -> Prop) :
  runs m k P ->
  (forall a, P a -> runs (f a) k' Q) ->
  runs (bind m f) (k + k') Q.
Proof.
  intros Hm Hf t Hu Hc.
  destruct (Hm t Hu ltac:(lia)) as (a & t1 & E1 & Pa & Hu1 & Hn1).
  destruct (Hf a Pa t1 Hu1 ltac:(lia)) as (b & t2 & E2 & Qb & Hu2 & Hn2).
  exists b, t2. unfold bind. rewrite E1.
  repeat split; auto; lia.
Qed.

Lemma runs_weaken {A : Type} (m : M A) (k : nat) (P Q : A -> Prop) :
  (forall a, P a -> Q a) -> runs m k P -> runs m k Q.
Proof.
  intros HPQ Hm t Hu Hc.
  destruct (Hm t Hu Hc) as (a & t' & E & Pa & Hu' & Hn).
  exists a, t'. auto.
Qed.

Lemma runs_for_range {S : Type} (body : nat -> S -> M S) (k : nat)
  (I : nat -> S -> Prop) :
  (forall i j s, I j s -> runs (body i s) k (I (Datatypes.S j))) ->
  forall n i j s, I j s -> runs (for_range i n body s) (n * k) (I (j + n)%nat).
Proof.
  intros Hbody n.
  induction n as [| n IH]; intros i j s Hs; simpl.
  - rewrite Nat.add_0_r. now apply runs_ret.
  - apply runs_bind with (P := I (Datatypes.S j)); [now apply Hbody |].
    intros s' Hs'. rewrite <- Nat.add_succ_comm. now apply IH.
Qed.

Lemma ensures_for_range {S : Type} (body : nat -> S -> M S)
  (I : nat -> S -> Prop) :
  (forall i s, I i s -> ensures (body i s) (I (Datatypes.S i))) ->
  forall n i s, I i s -> ensures (for_range i n body s) (I (i + n)%nat).
Proof.
  intros Hbody n.
  induction n as [| n IH]; intros i s Hs t t' a; simpl.
  - unfold ret. intros E. inversion E; subst. now rewrite Nat.add_0_r.
  - unfold bind.
    destruct (body i s t) as [[[s1 | e] t1] |] eqn:E1; try discriminate.
    rewrite <- Nat.add_succ_comm.
    apply (IH (Datatypes.S i) s1). eapply Hbody; eauto.
Qed.

(** ** The sampler *)

Lemma redraw_zero (t : tape) : redraw (0 :: t) = redraw t.
Proof.
  simpl. destruct (Req_dec_T 0 0) as [_ | H]; [reflexivity | now elim H].
Qed.

Lemma redraw_nonzero (x : R) (t : tape) :
  x <> 0 -> redraw (x :: t) = Some (Normal x, t).
Proof.
  intros H. simpl. destruct (Req_dec_T x 0); [contradiction | reflexivity].
Qed.

Lemma nonzeroCount_zero (t : tape) : nonzeroCount (0 :: t) = nonzeroCount t.
Proof.
  simpl. destruct (Req_dec_T 0 0) as [_ | H]; [reflexivity | now elim H].
Qed.

Lemma nonzeroCount_nonzero (x : R) (t : tape) :
  x <> 0 -> nonzeroCount (x :: t) = S (nonzeroCount t).
Proof.
  intros H. simpl. destruct (Req_dec_T x 0); [contradiction | reflexivity].
Qed.

Lemma redraw_runs : runs redraw 1 (fun u => 0 < u < 1).
Proof.
  intros t. induction t as [| x t IH]; intros Hu Hc; simpl in Hc; [lia |].
  inversion Hu as [| x' t' Hx Ht]; subst.
  destruct (Req_dec_T x 0) as [Hz | Hnz].
  - subst x. rewrite redraw_zero.
    destruct (IH Ht Hc) as (a & t' & E & Ha & Hu' & Hn).
    exists a, t'. rewrite nonzeroCount_zero. auto.
  - exists x, t. rewrite redraw_nonzero, nonzeroCount_nonzero by assumption.
    repeat split; auto; try lra; lia.
Qed.

Lemma ln_neg (u : R) : 0 < u < 1 -> ln u < 0.
Proof.
  intros [H0 H1]. rewrite <- ln_1. now apply ln_increasing.
Qed.

Lemma boxMuller_fin (u v : R) :
  0 < u < 1 -> boxMuller u v = Fin (gaussian u v).
Proof.
  intros Hu. unfold boxMuller, gaussian.
  rewrite log_fin by lra.
  cbn [JS.mul]. rewrite sqrt_fin by (pose proof (ln_neg u Hu); lra).
  reflexivity.
Qed.

Lemma normalRandom_runs :
  runs normalRandom 2 (fun val => exists z, variate z /\ val = Fin z).
Proof.
  unfold normalRandom.
  apply (runs_bind redraw _ 1 1 (fun u => 0 < u < 1)); [apply redraw_runs |].
  intros u Hu.
  replace 1%nat with (1 + 0)%nat by reflexivity.
  apply (runs_bind redraw _ 1 0 (fun v => 0 < v < 1)); [apply redraw_runs |].
  intros v Hv. apply runs_ret.
  exists (gaussian u v). split; [now exists u, v |].
  now apply boxMuller_fin.
Qed.

Lemma sumSquares_app (zs : list R) (z : R) :
  sumSquares (zs ++ [z]) = sumSquares zs + z * z.
Proof. induction zs as [| a zs IH]; simpl; [| rewrite IH]; lra. Qed.

Lemma sumSquares_nonneg (zs : list R) : 0 <= sumSquares zs.
Proof.
  induction zs as [| a zs IH]; simpl; [lra |].
  pose proof (Rle_0_sqr a) as H. unfold Rsqr in H. lra.
Qed.

(** What the filling loop has built after [j] iterations. *)
Lemma fill_runs (dimension : nat) :
  runs (for_range 0 dimension fillStep ([], Fin 0)) (dimension * 2)
    (fun st => exists zs,
       length zs = dimension /\ Forall variate zs
       /\ fst st = map Fin zs /\ snd st = Fin (sumSquares zs)).
Proof.
  apply (runs_for_range fillStep 2
           (fun j st => exists zs,
              length zs = j /\ Forall variate zs
              /\ fst st = map Fin zs /\ snd st = Fin (sumSquares zs))
           ) with (j := O).
  - intros i j st (zs & Hlen & Hv & Hvec & Hss). unfold fillStep.
    replace 2%nat with (2 + 0)%nat by reflexivity.
    eapply runs_bind; [apply normalRandom_runs |].
    intros val (z & Hz & ->). apply runs_ret.
    exists (zs ++ [z]). cbn [fst snd].
    rewrite length_app, Hvec, Hss, map_app, sumSquares_app. simpl.
    repeat split; auto; try lia.
    apply Forall_app. auto.
  - exists []. simpl. auto.
Qed.

Lemma get_middle (pre suf : list number) (a : number) :
  JS.get (pre ++ a :: suf) (length pre) = a.
Proof. unfold JS.get. induction pre as [| b pre IH]; simpl; auto. Qed.

Lemma set_middle (pre suf : list number) (a x : number) :
  JS.set (pre ++ a :: suf) (length pre) x = pre ++ x :: suf.
Proof. induction pre as [| b pre IH]; simpl; [| rewrite IH]; reflexivity. Qed.

Lemma scaleLoop_from (magnitude : number) (suf pre : list number) :
  fold_left
    (fun vec i => JS.set vec i (JS.div (JS.get vec i) magnitude))
    (seq (length pre) (length suf)) (pre ++ suf)
  = pre ++ map (fun a => JS.div a magnitude) suf.
Proof.
  revert pre.
  induction suf as [| a suf IH]; intros pre; simpl; [reflexivity |].
  rewrite get_middle, set_middle.
  replace (pre ++ JS.div a magnitude :: suf)
    with ((pre ++ [JS.div a magnitude]) ++ suf)
    by (rewrite <- app_assoc; reflexivity).
  replace (S (length pre)) with (length (pre ++ [JS.div a magnitude]))
    by (rewrite length_app; simpl; lia).
  rewrite IH, <- app_assoc. reflexivity.
Qed.

(** The scaling loop divides every coordinate of the filled vector. *)
Lemma scaleLoop_map (magnitude : number) (vector : list number) :
  scaleLoop (length vector) magnitude vector
  = map (fun a => JS.div a magnitude) vector.
Proof. exact (scaleLoop_from magnitude vector []). Qed.

(** The sampler, for any tape that holds enough non-zero draws. *)
Lemma generate_runs (dimension : nat) :
  runs (generateRandomUnitVector dimension) (dimension * 2)
    (fun vector => exists zs,
       length zs = dimension /\ Forall variate zs
       /\ vector = map (fun a => JS.div a (Fin (sqrt (sumSquares zs))))
                       (map Fin zs)).
Proof.
  unfold generateRandomUnitVector.
  replace (dimension * 2)%nat with (dimension * 2 + 0)%nat by lia.
  eapply runs_bind; [apply fill_runs |].
  intros [vector sumSquared] (zs & Hlen & Hv & Hvec & Hss).
  cbn [fst snd] in *. subst vector sumSquared.
  apply runs_ret. exists zs.
  rewrite sqrt_fin by apply sumSquares_nonneg.
  split; [exact Hlen |]. split; [exact Hv |].
  rewrite <- Hlen, <- (length_map Fin zs).
  apply scaleLoop_map.
Qed.

Lemma uniform_halves (n : nat) : uniform (halves n).
Proof.
  unfold uniform, halves.
  induction n as [| n IH]; simpl; constructor; auto. lra.
Qed.

Lemma nonzeroCount_halves (n : nat) : nonzeroCount (halves n) = n.
Proof.
  unfold halves. induction n as [| n IH]; [reflexivity |].
  cbn [repeat]. rewrite nonzeroCount_nonzero by lra. now rewrite IH.
Qed.

(** ** The sampling loops *)

Lemma drawSample_runs (dim : nat) (st : Pass) :
  runs (drawSample dim st) (dim * 2 + (dim * 2 + 0))
    (fun st' => exists distance, st' = record dim distance st).
Proof.
  unfold drawSample.
  eapply runs_bind; [apply generate_runs |]. intros vector1 _.
  eapply runs_bind; [apply generate_runs |]. intros vector2 _.
  unfold calculateCosineDistance, lift.
  apply (runs_ret (record dim _ st)). eexists. reflexivity.
Qed.

Lemma record_length (dim : nat) (distance : number) (st : Pass) :
  length (samples (record dim distance st)) = S (length (samples st)).
Proof. unfold record. cbn [samples]. rewrite length_app. simpl. lia. Qed.

Lemma unbatchedLoop_runs (dim : nat) (sampleSize : Z) (st : Pass) :
  runs (unbatchedLoop dim sampleSize st)
    (Z.to_nat sampleSize * (dim * 2 + (dim * 2 + 0)))
    (fun st' =>
       length (samples st')
       = (length (samples st) + Z.to_nat sampleSize)%nat).
Proof.
  unfold unbatchedLoop.
  apply (runs_for_range (fun _ => drawSample dim) _
           (fun j s => length (samples s) = (length (samples st) + j)%nat))
    with (j := O).
  - intros _ j s Hs.
    eapply runs_weaken; [| apply drawSample_runs].
    intros st' (distance & ->). rewrite record_length. lia.
  - lia.
Qed.

Lemma batches_of_positive (sampleSize : Z) :
  (0 < sampleSize)%Z ->
  batches sampleSize
  = (sampleSize / 100 + (if (sampleSize mod 100 =? 0)%Z then 0 else 1))%Z.
Proof.
  intros Hpos. pose proof (batches_bound sampleSize) as Hb.
  pose proof (Z.div_mod sampleSize 100 ltac:(lia)) as Hdm.
  pose proof (Z.mod_pos_bound sampleSize 100 ltac:(lia)) as Hm.
  destruct (Z.eqb_spec (sampleSize mod 100) 0); lia.
Qed.

Lemma batch_sizes (sampleSize : Z) (batch : nat) :
  (0 < sampleSize)%Z ->
  ((Z.of_nat batch < sampleSize / 100)%Z ->
   currentBatchSize sampleSize batch = 100%Z)
  /\ (Z.of_nat batch = (sampleSize / 100)%Z ->
      currentBatchSize sampleSize batch = (sampleSize mod 100)%Z).
Proof.
  intros Hpos. unfold currentBatchSize, batchSize.
  pose proof (Z.div_mod sampleSize 100 ltac:(lia)) as Hdm.
  pose proof (Z.mod_pos_bound sampleSize 100 ltac:(lia)) as Hm.
  split; intros Hk; lia.
Qed.

(** ** Statistics *)

Lemma recordAll_fin (dim : nat) (ds : list R) :
  forall (st : Pass) (s1 s2 : R),
    sumDistances st = Fin s1 ->
    sumSquaredDistances st = Fin s2 ->
    samples (recordAll dim (map Fin ds) st)
    = samples st
      ++ map (fun d => mkSample (Fin (clampR d)) (Fin (normR dim (clampR d))))
             ds
    /\ sumDistances (recordAll dim (map Fin ds) st)
       = Fin (s1 + sumR (map clampR ds))
    /\ sumSquaredDistances (recordAll dim (map Fin ds) st)
       = Fin (s2 + sumSquares (map clampR ds)).
Proof.
  unfold recordAll.
  induction ds as [| d ds IH]; intros st s1 s2 H1 H2; cbn [map fold_left].
  - rewrite app_nil_r, H1, H2. simpl. repeat split; f_equal; lra.
  - destruct (IH (record dim (Fin d) st)
                 (s1 + clampR d) (s2 + clampR d * clampR d))
      as (Hs & Hsum & Hsq).
    + unfold record. cbn [sumDistances].
      now rewrite clampDistance_fin, H1.
    + unfold record. cbn [sumSquaredDistances].
      now rewrite clampDistance_fin, H2.
    + rewrite Hs, Hsum, Hsq. split; [| split].
      * unfold record at 1. cbn [samples].
        rewrite clampDistance_fin, normalize_fin, <- app_assoc. reflexivity.
      * f_equal. simpl. lra.
      * f_equal. simpl. lra.
Qed.

Lemma sumOf_from (vs : list R) (acc : R) :
  fold_left JS.add (map Fin vs) (Fin acc) = Fin (acc + sumR vs).
Proof.
  revert acc. induction vs as [| v vs IH]; intros acc; simpl.
  - f_equal. lra.
  - rewrite IH. f_equal. lra.
Qed.

Lemma sumOf_fin (vs : list R) : sumOf (map Fin vs) = Fin (sumR vs).
Proof. unfold sumOf. rewrite sumOf_from. f_equal. lra. Qed.

Lemma sumSquaredDeviations_from (mu : R) (vs : list R) (acc : R) :
  fold_left
    (fun sum val =>
       JS.add sum (JS.mul (JS.sub val (Fin mu)) (JS.sub val (Fin mu))))
    (map Fin vs) (Fin acc)
  = Fin (acc + devSquares mu vs).
Proof.
  revert acc. induction vs as [| v vs IH]; intros acc; simpl.
  - f_equal. lra.
  - rewrite IH. f_equal. simpl. lra.
Qed.

Lemma sumSquaredDeviations_fin (mu : R) (vs : list R) :
  sumSquaredDeviations (Fin mu) (map Fin vs) = Fin (devSquares mu vs).
Proof.
  unfold sumSquaredDeviations. rewrite sumSquaredDeviations_from.
  f_equal. lra.
Qed.

Lemma devSquares_expand (mu : R) (vs : list R) :
  devSquares mu vs
  = sumSquares vs - 2 * mu * sumR vs + INR (length vs) * mu * mu.
Proof.
  induction vs as [| v vs IH].
  - simpl. lra.
  - cbn [devSquares sumSquares sumR length]. rewrite IH, S_INR. ring.
Qed.

Lemma devSquares_nonneg (mu : R) (vs : list R) : 0 <= devSquares mu vs.
Proof.
  induction vs as [| v vs IH]; simpl; [lra |].
  pose proof (Rle_0_sqr (v - mu)) as H. unfold Rsqr in H. lra.
Qed.

(** The online accumulator holds the mean of what it has seen and the
    sum of the squared deviations from it. *)
Lemma welford_invariant (cs : list R) :
  forall (k : nat) (m q s1 s2 : R),
    INR k * m = s1 ->
    q = s2 - INR k * m * m ->
    exists m' q',
      fold_left Welford.update (map Fin cs) (Welford.mkAcc k (Fin m) (Fin q))
      = Welford.mkAcc (k + length cs) (Fin m') (Fin q')
      /\ INR (k + length cs) * m' = s1 + sumR cs
      /\ q' = s2 + sumSquares cs - INR (k + length cs) * m' * m'.
Proof.
  induction cs as [| c cs IH]; intros k m q s1 s2 Hm Hq.
  - exists m, q. simpl. rewrite Nat.add_0_r. repeat split; lra.
  - cbn [map fold_left length sumR sumSquares].
    assert (Hk : INR (S k) <> 0) by (apply not_0_INR; lia).
    unfold Welford.update at 2.
    cbn [Welford.count Welford.mean Welford.M2].
    unfold JS.of_nat. cbn [JS.sub JS.neg JS.add].
    rewrite (div_fin _ _ Hk). cbn [JS.add JS.neg JS.mul].
    destruct (IH (S k)
                 (m + (c + - m) / INR (S k))
                 (q + (c + - m) * (c + - (m + (c + - m) / INR (S k))))
                 (s1 + c) (s2 + c * c))
      as (m' & q' & Hfold & Hm' & Hq').
    + rewrite <- Hm, S_INR. pose proof (pos_INR k). field. lra.
    + rewrite Hq, S_INR. pose proof (pos_INR k). field. lra.
    + exists m', q'. rewrite <- Nat.add_succ_comm.
      rewrite Hfold. repeat split; lra.
Qed.

Lemma welford_of_finite (cs : list R) :
  cs <> [] ->
  Welford.finalize (Welford.updateAll (map Fin cs))
  = Normal (Fin (sumR cs / INR (length cs)),
            JS.sqrt (Fin (sumSquares cs / INR (length cs)
                          - sumR cs / INR (length cs)
                            * (sumR cs / INR (length cs))))).
Proof.
  intros Hne. unfold Welford.updateAll, Welford.empty.
  destruct (welford_invariant cs 0 0 0 0 0) as (m & q & Hfold & Hm & Hq);
    [simpl; lra | simpl; lra |].
  rewrite Hfold. cbn [Nat.add] in *.
  assert (Hn : INR (length cs) <> 0).
  { apply not_0_INR. destruct cs; [contradiction | simpl; lia]. }
  unfold Welford.finalize. cbn [Welford.count Welford.mean Welford.M2].
  destruct (length cs) as [| n] eqn:El; [now elim Hn |].
  unfold JS.of_nat. rewrite (div_fin _ _ Hn).
  assert (Em : m = sumR cs / INR (S n)).
  { apply (Rmult_eq_reg_l (INR (S n))); [| exact Hn].
    rewrite Hm. field. exact Hn. }
  assert (Ev : q / INR (S n)
               = sumSquares cs / INR (S n)
                 - sumR cs / INR (S n) * (sumR cs / INR (S n))).
  { rewrite Hq, Em. field. exact Hn. }
  now rewrite Em, Ev.
Qed.

Lemma map_originalDistance (dim : nat) (ds : list R) :
  map originalDistance
    (map (fun d => mkSample (Fin (clampR d)) (Fin (normR dim (clampR d)))) ds)
  = map Fin (map clampR ds).
Proof. rewrite !map_map. reflexivity. Qed.

Lemma map_normalizedDistance (dim : nat) (ds : list R) :
  map normalizedDistance
    (map (fun d => mkSample (Fin (clampR d)) (Fin (normR dim (clampR d)))) ds)
  = map Fin (map (normR dim) (map clampR ds)).
Proof. rewrite !map_map. reflexivity. Qed.

(** The record computed by the code from [n > 0] finite distances. *)
Lemma finalize_fin (dim : nat) (ds : list R) :
  ds <> [] ->
  let cs := map clampR ds in
  let vs := map (normR dim) cs in
  let n := INR (length ds) in
  exists stats,
    finalizeStatistics dim (Z.of_nat (length ds))
      (recordAll dim (map Fin ds) emptyPass) = Normal stats
    /\ originalMean stats = Fin (sumR cs / n)
    /\ originalStd stats
       = JS.sqrt (Fin (sumSquares cs / n - sumR cs / n * (sumR cs / n)))
    /\ normalizedMean stats = Fin (sumR vs / n)
    /\ normalizedStd stats = JS.sqrt (Fin (devSquares (sumR vs / n) vs / n)).
Proof.
  intros Hne cs vs n.
  assert (Hn : n <> 0).
  { apply not_0_INR. destruct ds; [contradiction | simpl; lia]. }
  destruct (recordAll_fin dim ds emptyPass 0 0 eq_refl eq_refl)
    as (Hs & Hsum & Hsq).
  cbn [samples emptyPass app] in Hs.
  eexists. split; [reflexivity |].
  cbn [originalMean originalStd normalizedMean normalizedStd].
  rewrite Hs, Hsum, Hsq, map_normalizedDistance.
  unfold JS.of_Z, JS.of_nat.
  rewrite <- INR_IZR_INZ, !length_map.
  fold cs vs n.
  rewrite !(div_fin _ n Hn), sumOf_fin, (div_fin _ n Hn).
  rewrite sumSquaredDeviations_fin, (div_fin _ n Hn).
  cbn [JS.mul JS.sub JS.neg JS.add].
  rewrite !Rplus_0_l.
  repeat split.
Qed.

Lemma clampR_idle (x : R) : 0 <= x <= 2 -> clampR x = x.
Proof. apply clamp_idle. Qed.

(** ** Histograms *)

Lemma binWidth_pos (lo hi : R) (n : nat) :
  lo < hi -> (0 < n)%nat -> 0 < binWidth lo hi n.
Proof.
  intros Hd Hn. unfold binWidth.
  apply Rdiv_lt_0_compat; [lra | now apply lt_0_INR].
Qed.

Lemma binSize_fin (lo hi : R) (n : nat) :
  (0 < n)%nat ->
  JS.div (JS.sub (Fin hi) (Fin lo)) (JS.of_nat n) = Fin (binWidth lo hi n).
Proof.
  intros Hn. unfold JS.of_nat. cbn [JS.sub JS.neg JS.add].
  rewrite div_fin by (apply not_0_INR; lia). reflexivity.
Qed.

(** A value lies in the domain exactly when its bin index passes the
    test [binIndex >= 0 && binIndex < binCount]. *)
Lemma index_in_range (lo hi : R) (n : nat) (v : R) :
  lo < hi -> (0 < n)%nat ->
  let z := Zfloor ((v - lo) / binWidth lo hi n) in
  (lo <= v < hi) <-> (0 <= IZR z /\ IZR z < INR n).
Proof.
  intros Hd Hn z.
  pose proof (binWidth_pos lo hi n Hd Hn) as Hw.
  assert (HN : 0 < INR n) by now apply lt_0_INR.
  assert (Hspan : binWidth lo hi n * INR n = hi - lo).
  { unfold binWidth. field. lra. }
  set (w := binWidth lo hi n) in *.
  assert (Ht : (v - lo) / w * w = v - lo) by (field; lra).
  pose proof (Zfloor_bound ((v - lo) / w)) as [Hlo Hhi]. fold z in Hlo, Hhi.
  set (q := (v - lo) / w) in *.
  split.
  - intros [H1 H2]. split.
    + apply IZR_le. apply Zfloor_lub. fold q.
      assert (0 <= q * w) by lra.
      destruct (Rle_dec 0 q) as [Hq | Hq]; [simpl; lra |]. nra.
    + assert (q * w < INR n * w) by lra.
      assert (q < INR n) by nra. lra.
  - intros [H1 H2].
    assert (Hz : (z + 1 <= Z.of_nat n)%Z).
    { rewrite INR_IZR_INZ in H2. apply lt_IZR in H2. lia. }
    apply IZR_le in Hz. rewrite plus_IZR, <- INR_IZR_INZ in Hz.
    split; nra.
Qed.

Lemma countValue_in (lo hi : R) (n : nat) (bins : list number) (v : R)
  (b : nat) :
  lo < hi -> (0 < n)%nat ->
  binOf lo hi n v = Some b ->
  (b < n)%nat
  /\ Histogram.countValue (Fin lo) (Fin (binWidth lo hi n)) n bins (Fin v)
     = JS.set bins b (JS.add (JS.get bins b) (Fin 1)).
Proof.
  intros Hd Hn Hb. unfold binOf in Hb.
  destruct (Rle_dec lo v) as [H1 |]; [| discriminate].
  destruct (Rlt_dec v hi) as [H2 |]; [| discriminate].
  injection Hb as Hb.
  pose proof (binWidth_pos lo hi n Hd Hn) as Hw.
  destruct (proj1 (index_in_range lo hi n v Hd Hn) (conj H1 H2)) as [Hz1 Hz2].
  set (z := Zfloor ((v - lo) / binWidth lo hi n)) in *.
  assert (Hz0 : (0 <= z)%Z) by now apply le_IZR.
  split.
  - rewrite INR_IZR_INZ in Hz2. apply lt_IZR in Hz2. lia.
  - unfold Histogram.countValue.
    cbn [JS.sub JS.neg JS.add].
    rewrite div_fin by lra. cbn [JS.floor].
    change ((v + - lo) / binWidth lo hi n)
      with ((v - lo) / binWidth lo hi n).
    fold z. unfold JS.of_nat.
    rewrite (proj2 (leb_fin 0 (IZR z)) Hz1).
    rewrite (proj2 (ltb_fin (IZR z) (INR n)) Hz2).
    cbn [andb JS.index]. rewrite ZfloorZ, Hb. reflexivity.
Qed.

Lemma countValue_out (lo hi : R) (n : nat) (bins : list number) (v : R) :
  lo < hi -> (0 < n)%nat ->
  binOf lo hi n v = None ->
  Histogram.countValue (Fin lo) (Fin (binWidth lo hi n)) n bins (Fin v)
  = bins.
Proof.
  intros Hd Hn Hb.
  pose proof (binWidth_pos lo hi n Hd Hn) as Hw.
  pose proof (index_in_range lo hi n v Hd Hn) as Hiff.
  set (z := Zfloor ((v - lo) / binWidth lo hi n)) in *.
  unfold Histogram.countValue.
  cbn [JS.sub JS.neg JS.add].
  rewrite div_fin by lra. cbn [JS.floor].
  change ((v + - lo) / binWidth lo hi n) with ((v - lo) / binWidth lo hi n).
  fold z. unfold JS.of_nat.
  destruct (JS.leb (Fin 0) (Fin (IZR z))) eqn:E1; [| reflexivity].
  destruct (JS.ltb (Fin (IZR z)) (Fin (INR n))) eqn:E2; [| reflexivity].
  exfalso.
  apply leb_fin in E1. apply ltb_fin in E2.
  destruct (proj2 Hiff (conj E1 E2)) as [H1 H2].
  unfold binOf in Hb.
  destruct (Rle_dec lo v); [| contradiction].
  destruct (Rlt_dec v hi); [discriminate | contradiction].
Qed.

Lemma get_map_seq (g : nat -> number) (n k b : nat) :
  (b < n)%nat -> JS.get (map g (seq k n)) b = g (k + b)%nat.
Proof.
  unfold JS.get. revert k b.
  induction n as [| n IH]; intros k b Hb; [lia |].
  destruct b as [| b]; simpl.
  - now rewrite Nat.add_0_r.
  - rewrite IH by lia. f_equal. lia.
Qed.

Lemma set_map_seq (g : nat -> number) (x : number) (n k b : nat) :
  (b < n)%nat ->
  JS.set (map g (seq k n)) b x
  = map (fun i => if (i =? k + b)%nat then x else g i) (seq k n).
Proof.
  revert k b.
  induction n as [| n IH]; intros k b Hb; [lia |].
  destruct b as [| b]; cbn [seq map JS.set].
  - rewrite Nat.add_0_r, Nat.eqb_refl. f_equal.
    apply map_ext_in. intros i Hi. apply in_seq in Hi.
    destruct (Nat.eqb_spec i k); [lia | reflexivity].
  - destruct (Nat.eqb_spec k (k + S b)); [lia |].
    f_equal. rewrite IH by lia.
    apply map_ext. intros i. now rewrite Nat.add_succ_comm.
Qed.

Lemma countAt_cons (lo hi : R) (n i : nat) (v : R) (vs : list R) :
  countAt lo hi n i (v :: vs)
  = ((if inBin lo hi n i v then 1 else 0) + countAt lo hi n i vs)%nat.
Proof.
  unfold countAt. cbn [filter].
  destruct (inBin lo hi n i v); reflexivity.
Qed.

(** The bins after all values have been counted: bin [i] holds the
    number of values whose bin is [i]. *)
Lemma fillBins_from (lo hi : R) (n : nat) (vs : list R) :
  lo < hi -> (0 < n)%nat ->
  forall c : nat -> nat,
    fold_left
      (Histogram.countValue (Fin lo) (Fin (binWidth lo hi n)) n)
      (map Fin vs) (map (fun i => Fin (INR (c i))) (seq 0 n))
    = map (fun i => Fin (INR (c i + countAt lo hi n i vs))) (seq 0 n).
Proof.
  intros Hd Hn.
  induction vs as [| v vs IH]; intros c; cbn [map fold_left].
  - apply map_ext. intros i. unfold countAt. simpl. now rewrite Nat.add_0_r.
  - destruct (binOf lo hi n v) as [b |] eqn:Eb.
    + destruct (countValue_in lo hi n
                  (map (fun i => Fin (INR (c i))) (seq 0 n)) v b Hd Hn Eb)
        as [Hlt ->].
      rewrite get_map_seq, set_map_seq by exact Hlt.
      cbn [Nat.add JS.add].
      rewrite (map_ext _
                 (fun i => Fin (INR (c i + (if (i =? b)%nat then 1 else 0))))).
      * rewrite IH. apply map_ext. intros i.
        rewrite countAt_cons. unfold inBin. rewrite Eb.
        rewrite (Nat.eqb_sym b i). do 2 f_equal. lia.
      * intros i. destruct (Nat.eqb_spec i b) as [-> |].
        -- f_equal. rewrite plus_INR. simpl. reflexivity.
        -- now rewrite Nat.add_0_r.
    + rewrite countValue_out by assumption.
      rewrite IH. apply map_ext. intros i.
      rewrite countAt_cons. unfold inBin. now rewrite Eb.
Qed.

Lemma repeat_map_seq {A : Type} (a : A) (n k : nat) :
  repeat a n = map (fun _ => a) (seq k n).
Proof.
  revert k. induction n as [| n IH]; intros k; simpl; [| rewrite (IH (S k))];
    reflexivity.
Qed.

Lemma fillBins_counts (lo hi : R) (n : nat) (vs : list R) :
  lo < hi -> (0 < n)%nat ->
  Histogram.fillBins (Fin lo) (Fin (binWidth lo hi n)) n (map Fin vs)
  = map (fun i => Fin (INR (countAt lo hi n i vs))) (seq 0 n).
Proof.
  intros Hd Hn. unfold Histogram.fillBins.
  rewrite (repeat_map_seq (Fin 0) n 0).
  exact (fillBins_from lo hi n vs Hd Hn (fun _ => O)).
Qed.

Lemma combine_seq_map {A : Type} (g : nat -> A) (n k : nat) :
  combine (seq k n) (map g (seq k n)) = map (fun i => (i, g i)) (seq k n).
Proof.
  revert k. induction n as [| n IH]; intros k; simpl; [| rewrite IH];
    reflexivity.
Qed.

Lemma toChart_counts (lo binSize : number) (total n : nat)
  (g : nat -> number) :
  Histogram.toChart lo binSize total (map g (seq 0 n))
  = map (fun i =>
           Histogram.mkBin
             (JS.add lo (JS.mul (JS.add (JS.of_nat i) (Fin 0.5)) binSize))
             (JS.div (JS.div (g i) (JS.of_nat total)) binSize))
        (seq 0 n).
Proof.
  unfold Histogram.toChart.
  rewrite length_map, length_seq, combine_seq_map, map_map. reflexivity.
Qed.

Lemma list_sum_add (a c : nat -> nat) (l : list nat) :
  list_sum (map (fun i => (a i + c i)%nat) l)
  = (list_sum (map a l) + list_sum (map c l))%nat.
Proof. induction l as [| i l IH]; simpl; [reflexivity | rewrite IH; lia]. Qed.

Lemma list_sum_zero {A : Type} (l : list A) :
  list_sum (map (fun _ => 0%nat) l) = 0%nat.
Proof. induction l as [| a l IH]; simpl; auto. Qed.

Lemma list_sum_indicator (b n k : nat) :
  (k <= b < k + n)%nat ->
  list_sum (map (fun i => if (b =? i)%nat then 1%nat else 0%nat) (seq k n))
  = 1%nat.
Proof.
  revert k. induction n as [| n IH]; intros k Hb; [lia |].
  cbn [seq map list_sum].
  destruct (Nat.eqb_spec b k) as [-> | Hne].
  - rewrite (map_ext_in _ (fun _ => 0%nat)).
    + change (1 + list_sum (map (fun _ : nat => 0) (seq (S k) n)) = 1)%nat.
      now rewrite list_sum_zero.
    + intros i Hi. apply in_seq in Hi.
      destruct (Nat.eqb_spec k i); [lia | reflexivity].
  - change (0 + list_sum (map (fun i => if (b =? i)%nat then 1 else 0)
                               (seq (S k) n)) = 1)%nat.
    rewrite IH by lia. reflexivity.
Qed.

(** Every value of the domain is counted in exactly one bin. *)
Lemma counts_add_up (lo hi : R) (n : nat) (vs : list R) :
  lo < hi -> (0 < n)%nat ->
  Forall (fun v => lo <= v < hi) vs ->
  list_sum (map (fun i => countAt lo hi n i vs) (seq 0 n)) = length vs.
Proof.
  intros Hd Hn Hall.
  induction Hall as [| v vs Hv _ IH].
  - unfold countAt. cbn [filter length]. apply list_sum_zero.
  - rewrite (map_ext _ _ (fun i => countAt_cons lo hi n i v vs)).
    rewrite (list_sum_add (fun i => if inBin lo hi n i v then 1 else 0)%nat).
    rewrite IH. cbn [length].
    destruct (binOf lo hi n v) as [b |] eqn:Eb.
    + destruct (countValue_in lo hi n [] v b Hd Hn Eb) as [Hlt _].
      unfold inBin. rewrite Eb, list_sum_indicator by lia. reflexivity.
    + exfalso. unfold binOf in Eb.
      destruct (Rle_dec lo v); [| lra].
      destruct (Rlt_dec v hi); [discriminate | lra].
Qed.

Lemma integral_from (w : R) (x : nat -> number) (d : nat -> R)
  (l : list nat) (acc : R) :
  fold_left
    (fun a b => JS.add a (JS.mul (Histogram.count b) (Fin w)))
    (map (fun i => Histogram.mkBin (x i) (Fin (d i))) l) (Fin acc)
  = Fin (acc + sumR (map (fun i => d i * w) l)).
Proof.
  revert acc. induction l as [| i l IH]; intros acc; simpl.
  - f_equal. lra.
  - rewrite IH. f_equal. lra.
Qed.

Lemma sumR_scaled_counts (c : nat -> nat) (k : R) (l : list nat) :
  sumR (map (fun i => INR (c i) * k) l) = INR (list_sum (map c l)) * k.
Proof.
  induction l as [| i l IH]; simpl; [lra |].
  rewrite IH, plus_INR. lra.
Qed.

Lemma build_fin (lo hi : R) (n total : nat) (vs : list R) :
  lo < hi -> (0 < n)%nat -> (0 < total)%nat ->
  Histogram.build (Fin lo) (Fin hi) n (map Fin vs) total
  = map (fun i =>
           Histogram.mkBin
             (Fin (lo + (INR i + 0.5) * binWidth lo hi n))
             (Fin (INR (countAt lo hi n i vs)
                   / (INR total * binWidth lo hi n))))
        (seq 0 n).
Proof.
  intros Hd Hn Ht. unfold Histogram.build.
  rewrite binSize_fin by exact Hn.
  rewrite fillBins_counts by assumption.
  rewrite toChart_counts. apply map_ext. intros i.
  pose proof (binWidth_pos lo hi n Hd Hn) as Hw.
  assert (HT : INR total <> 0) by (apply not_0_INR; lia).
  unfold JS.of_nat. cbn [JS.add JS.mul].
  rewrite (div_fin _ _ HT), div_fin by lra.
  do 2 f_equal. field. split; lra.
Qed.

Lemma binOf_domain (lo hi : R) (n : nat) (v : R) :
  (lo <= v < hi ->
   binOf lo hi n v
   = Some (Z.to_nat (Zfloor ((v - lo) / binWidth lo hi n))))
  /\ (~ lo <= v < hi -> binOf lo hi n v = None).
Proof.
  unfold binOf.
  destruct (Rle_dec lo v); destruct (Rlt_dec v hi); split; intros H;
    try reflexivity; lra.
Qed.

Lemma integral_one (lo hi : R) (n : nat) (vs : list R) :
  lo < hi -> (0 < n)%nat -> vs <> [] ->
  Forall (fun v => lo <= v < hi) vs ->
  integral (Fin (binWidth lo hi n))
    (Histogram.build (Fin lo) (Fin hi) n (map Fin vs) (length vs))
  = Fin 1.
Proof.
  intros Hd Hn Hne Hall.
  assert (Ht : (0 < length vs)%nat)
    by (destruct vs; [contradiction | simpl; lia]).
  rewrite build_fin by assumption.
  unfold integral. rewrite integral_from. f_equal.
  pose proof (binWidth_pos lo hi n Hd Hn) as Hw.
  assert (HT : INR (length vs) <> 0) by (apply not_0_INR; lia).
  rewrite (map_ext _ (fun i => INR (countAt lo hi n i vs)
                               * / INR (length vs))).
  - rewrite sumR_scaled_counts, counts_add_up by assumption. field. exact HT.
  - intros i. field. split; lra.
Qed.

(** ** What the sampling loop stores *)

Lemma ensures_bind {A B : Type} (m : M A) (f : A -> M B)
  (P : A -> Prop) (Q : B -> Prop) :
  ensures m P -> (forall a, P a -> ensures (f a) Q) -> ensures (bind m f) Q.
Proof.
  intros Hm Hf t t' b. unfold bind.
  destruct (m t) as [[[a | e] t1] |] eqn:E1; try discriminate.
  intros E2. exact (Hf a (Hm _ _ _ E1) _ _ _ E2).
Qed.

Lemma ensures_ret {A : Type} (a : A) (Q : A -> Prop) : Q a -> ensures (ret a) Q.
Proof. intros Ha t t' b. unfold ret. intros E. now inversion E; subst. Qed.

Lemma ensures_true {A : Type} (m : M A) : ensures m (fun _ => True).
Proof. intros t t' a _. exact I. Qed.

Lemma drawSample_records (dim : nat) (st : Pass) :
  ensures (drawSample dim st)
    (fun st' => exists distance, st' = record dim distance st).
Proof.
  unfold drawSample.
  eapply ensures_bind; [apply ensures_true | intros vector1 _].
  eapply ensures_bind; [apply ensures_true | intros vector2 _].
  eapply ensures_bind; [apply ensures_true | intros distance _].
  apply ensures_ret. now exists distance.
Qed.

Lemma record_inRange (dim : nat) (distance : number) (st : Pass) :
  Forall (fun s => inRange (originalDistance s)) (samples st) ->
  Forall (fun s => inRange (originalDistance s))
         (samples (record dim distance st)).
Proof.
  intros H. unfold record. cbn [samples].
  apply Forall_app. split; [exact H |].
  constructor; [| constructor]. cbn [originalDistance].
  apply clampDistance_cases.
Qed.

Lemma samplingLoop_inRange (dim : nat) (sampleSize : Z) (st : Pass) :
  Forall (fun s => inRange (originalDistance s)) (samples st) ->
  ensures (samplingLoop dim sampleSize st)
    (fun st' => Forall (fun s => inRange (originalDistance s)) (samples st')).
Proof.
  intros Hst. unfold samplingLoop.
  apply (ensures_for_range _
           (fun _ s => Forall (fun x => inRange (originalDistance x))
                              (samples s))); [| exact Hst].
  intros batch s Hs.
  apply (ensures_for_range _
           (fun _ s' => Forall (fun x => inRange (originalDistance x))
                               (samples s'))); [| exact Hs].
  intros i s' Hs' t t' s'' E.
  destruct (drawSample_records dim s' _ _ _ E) as (distance & ->).
  now apply record_inRange.
Qed.

Lemma recordAll_snoc (dim : nat) (ds : list number) (d : number) (st : Pass) :
  recordAll dim (ds ++ [d]) st = record dim d (recordAll dim ds st).
Proof. unfold recordAll. now rewrite fold_left_app. Qed.

(** A pass returned by the sampling loops is the record of as many
    distances as samples were asked for. *)
Lemma samplingLoop_recordAll (dim : nat) (sampleSize : Z) (st : Pass) :
  ensures (samplingLoop dim sampleSize st)
    (fun st' => exists distances,
       length distances = Z.to_nat sampleSize
       /\ st' = recordAll dim distances st).
Proof.
  intros t t' st' E. rewrite samplingLoop_unbatched in E.
  unfold unbatchedLoop in E.
  apply (ensures_for_range (fun _ => drawSample dim)
           (fun i s => exists distances,
              length distances = i /\ s = recordAll dim distances st))
    in E; [exact E | | now exists []].
  intros i s (distances & Hlen & ->) t0 t0' s' E'.
  destruct (drawSample_records dim _ _ _ _ E') as (d & ->).
  exists (distances ++ [d]). rewrite length_app, recordAll_snoc. simpl.
  split; [lia | reflexivity].
Qed.

(** ** The dimension selector *)

Lemma insertAscending_In (d x : nat) (l : list nat) :
  In x (insertAscending d l) <-> x = d \/ In x l.
Proof.
  induction l as [| h rest IH]; simpl.
  - intuition.
  - destruct (d <=? h)%nat; simpl; [intuition |].
    rewrite IH. intuition.
Qed.

Lemma sortAscending_In (x : nat) (l : list nat) :
  In x (sortAscending l) <-> In x l.
Proof.
  unfold sortAscending. induction l as [| h rest IH]; simpl; [tauto |].
  rewrite insertAscending_In, IH. intuition.
Qed.

Lemma insertAscending_length (d : nat) (l : list nat) :
  length (insertAscending d l) = S (length l).
Proof.
  induction l as [| h rest IH]; simpl; [reflexivity |].
  destruct (d <=? h)%nat; simpl; [reflexivity | now rewrite IH].
Qed.

Lemma sortAscending_length (l : list nat) :
  length (sortAscending l) = length l.
Proof.
  unfold sortAscending. induction l as [| h rest IH]; simpl; [reflexivity |].
  now rewrite insertAscending_length, IH.
Qed.

Lemma ascending_cons (h : nat) (l : list nat) :
  ascending (h :: l) <-> ascending l /\ Forall (lt h) l.
Proof.
  unfold ascending. split.
  - intros H. inversion H; subst. auto.
  - intros [H1 H2]. now constructor.
Qed.

Lemma insertAscending_ascending (d : nat) (l : list nat) :
  ascending l -> ~ In d l -> ascending (insertAscending d l).
Proof.
  induction l as [| h rest IH]; intros Hl Hd; simpl.
  - apply ascending_cons. split; [constructor | constructor].
  - apply ascending_cons in Hl as [Hrest Hh].
    destruct (Nat.leb_spec d h) as [Hle | Hlt].
    + assert (Hne : h <> d) by (intros ->; apply Hd; now left).
      assert (Hdh : (d < h)%nat) by lia.
      apply ascending_cons. split.
      * apply ascending_cons. auto.
      * constructor; [exact Hdh |].
        eapply Forall_impl; [| exact Hh]. intros a Ha. simpl in Ha. lia.
    + apply ascending_cons. split.
      * apply IH; [exact Hrest |]. simpl in Hd. tauto.
      * apply Forall_forall. intros x Hx.
        apply insertAscending_In in Hx as [-> | Hx]; [exact Hlt |].
        rewrite Forall_forall in Hh. now apply Hh.
Qed.

Lemma ascending_NoDup (l : list nat) : ascending l -> NoDup l.
Proof.
  induction l as [| h rest IH]; intros Hl; constructor.
  - apply ascending_cons in Hl as [_ Hh]. intros Hin.
    rewrite Forall_forall in Hh. specialize (Hh h Hin). lia.
  - apply IH. now apply ascending_cons in Hl.
Qed.

Lemma sortAscending_ascending (l : list nat) :
  NoDup l -> ascending (sortAscending l).
Proof.
  unfold sortAscending. induction 1 as [| h rest Hh _ IH]; simpl.
  - constructor.
  - apply insertAscending_ascending; [exact IH |].
    intros Hin. apply Hh. now apply (sortAscending_In h rest).
Qed.

Lemma filter_ascending (f : nat -> bool) (l : list nat) :
  ascending l -> ascending (filter f l).
Proof.
  induction l as [| h rest IH]; intros Hl; simpl; [exact Hl |].
  apply ascending_cons in Hl as [Hrest Hh].
  destruct (f h); [| now apply IH].
  apply ascending_cons. split; [now apply IH |].
  apply Forall_forall. intros x Hx. apply filter_In in Hx as [Hx _].
  rewrite Forall_forall in Hh. now apply Hh.
Qed.

(** Two strictly ascending lists with the same members are equal. *)
Lemma ascending_unique (l1 l2 : list nat) :
  ascending l1 -> ascending l2 ->
  (forall x, In x l1 <-> In x l2) -> l1 = l2.
Proof.
  revert l2.
  induction l1 as [| h1 r1 IH]; intros [| h2 r2] H1 H2 Hmem.
  - reflexivity.
  - exfalso. apply (proj2 (Hmem h2)). now left.
  - exfalso. apply (proj1 (Hmem h1)). now left.
  - apply ascending_cons in H1 as [Hr1 Hh1].
    apply ascending_cons in H2 as [Hr2 Hh2].
    rewrite Forall_forall in Hh1, Hh2.
    assert (Eh : h1 = h2).
    { destruct (proj1 (Hmem h1) (or_introl eq_refl)) as [E | Hin1];
        [now symmetry |].
      destruct (proj2 (Hmem h2) (or_introl eq_refl)) as [E | Hin2];
        [exact E |].
      specialize (Hh1 _ Hin2). specialize (Hh2 _ Hin1). lia. }
    subst h2. f_equal. apply IH; try assumption.
    intros x. split; intros Hx.
    + destruct (proj1 (Hmem x) (or_intror Hx)) as [E | Hin]; [| exact Hin].
      subst x. specialize (Hh1 _ Hx). lia.
    + destruct (proj2 (Hmem x) (or_intror Hx)) as [E | Hin]; [| exact Hin].
      subst x. specialize (Hh2 _ Hx). lia.
Qed.

Lemma includes_In (l : list nat) (dim : nat) :
  includes l dim = true <-> In dim l.
Proof.
  unfold includes. rewrite existsb_exists. split.
  - intros (x & Hx & E). apply Nat.eqb_eq in E. now subst.
  - intros H. exists dim. split; [exact H | apply Nat.eqb_refl].
Qed.

Lemma toggleDimension_remove (sel : list nat) (dim : nat) :
  In dim sel ->
  toggleDimension sel dim = filter (fun d => negb (d =? dim)%nat) sel.
Proof.
  intros H. unfold toggleDimension.
  now rewrite (proj2 (includes_In sel dim) H).
Qed.

Lemma toggleDimension_add (sel : list nat) (dim : nat) :
  ~ In dim sel -> (length sel < 4)%nat ->
  toggleDimension sel dim = sortAscending (sel ++ [dim]).
Proof.
  intros H Hlen. unfold toggleDimension.
  destruct (includes sel dim) eqn:E; [now apply includes_In in E |].
  now rewrite (proj2 (Nat.ltb_lt _ _) Hlen).
Qed.

Lemma toggleDimension_full (sel : list nat) (dim : nat) :
  ~ In dim sel -> (4 <= length sel)%nat -> toggleDimension sel dim = sel.
Proof.
  intros H Hlen. unfold toggleDimension.
  destruct (includes sel dim) eqn:E; [now apply includes_In in E |].
  destruct (Nat.ltb_spec (length sel) 4); [lia | reflexivity].
Qed.

Lemma filter_out_In (sel : list nat) (dim x : nat) :
  In x (filter (fun d => negb (d =? dim)%nat) sel) <-> In x sel /\ x <> dim.
Proof.
  rewrite filter_In. split; intros [H1 H2]; split; auto.
  - intros ->. now rewrite Nat.eqb_refl in H2.
  - destruct (Nat.eqb_spec x dim); [contradiction | reflexivity].
Qed.

Lemma filter_out_shorter (sel : list nat) (dim : nat) :
  In dim sel ->
  (length (filter (fun d => negb (d =? dim)%nat) sel) < length sel)%nat.
Proof.
  induction sel as [| h r IH]; intros Hin; [destruct Hin |].
  cbn [filter length].
  pose proof (filter_length_le (fun d => negb (d =? dim)%nat) r) as Hle.
  destruct (Nat.eqb_spec h dim) as [-> | Hne]; cbn [negb length].
  - lia.
  - destruct Hin as [E | Hin]; [contradiction |].
    specialize (IH Hin). lia.
Qed.

(** ** More on the distance *)

Lemma dotR_comm (xs ys : list R) : dotR xs ys = dotR ys xs.
Proof.
  revert ys. induction xs as [| x xs IH]; intros [| y ys]; simpl;
    try reflexivity.
  rewrite IH. lra.
Qed.

Lemma dotR_self (xs : list R) : dotR xs xs = sumSquares xs.
Proof. induction xs as [| x xs IH]; simpl; [| rewrite IH]; reflexivity. Qed.

Lemma dotR_opposite (xs : list R) :
  dotR xs (map Ropp xs) = - sumSquares xs.
Proof. induction xs as [| x xs IH]; simpl; [| rewrite IH]; lra. Qed.

(** ** The record of a dimension, field by field *)

Lemma finalize_fields (dim : nat) (sampleSize : Z) (st : Pass)
  (stats : DimensionRecord) :
  finalizeStatistics dim sampleSize st = Normal stats ->
  dimension stats = dim
  /\ theoreticalStd stats = JS.div (Fin 1) (JS.sqrt (JS.of_nat dim))
  /\ ratio stats = JS.div (originalStd stats) (theoreticalStd stats).
Proof.
  unfold finalizeStatistics. intros E. injection E as <-.
  cbn [dimension theoreticalStd ratio originalStd]. auto.
Qed.

(** ** Objects keyed by dimension *)

Lemma lookup_assign_same {V : Type} (o : list (nat * V)) (k : nat) (v : V) :
  lookup (assign o k v) k = Some v.
Proof.
  induction o as [| [k' v'] rest IH]; simpl.
  - now rewrite Nat.eqb_refl.
  - destruct (Nat.eqb_spec k k') as [-> | Hne]; simpl.
    + now rewrite Nat.eqb_refl.
    + destruct (Nat.eqb_spec k k'); [contradiction | exact IH].
Qed.

Lemma lookup_assign_other {V : Type} (o : list (nat * V)) (k k' : nat)
  (v : V) :
  k' <> k -> lookup (assign o k v) k' = lookup o k'.
Proof.
  intros Hne. induction o as [| [k0 v0] rest IH]; simpl.
  - destruct (Nat.eqb_spec k' k); [contradiction | reflexivity].
  - destruct (Nat.eqb_spec k k0) as [-> | Hne0]; simpl.
    + destruct (Nat.eqb_spec k' k0); [contradiction | reflexivity].
    + destruct (Nat.eqb_spec k' k0); [reflexivity | exact IH].
Qed.

(** ** Loops whose steps differ *)

Lemma ensures_for_range_bounded {S : Type} (body : nat -> S -> M S)
  (I : nat -> S -> Prop) (n : nat) :
  forall i0 s,
    (forall i s', (i0 <= i < i0 + n)%nat -> I i s' ->
                  ensures (body i s') (I (Datatypes.S i))) ->
    I i0 s -> ensures (for_range i0 n body s) (I (i0 + n)%nat).
Proof.
  induction n as [| n IH]; intros i0 s Hbody Hs t t' a; simpl.
  - unfold ret. intros E. inversion E; subst. now rewrite Nat.add_0_r.
  - unfold bind.
    destruct (body i0 s t) as [[[s1 | e] t1] |] eqn:E1; try discriminate.
    rewrite <- Nat.add_succ_comm.
    apply (IH (Datatypes.S i0) s1).
    + intros i s' Hi. apply Hbody. lia.
    + eapply (Hbody i0 s); eauto. lia.
Qed.

Lemma runs_for_range_cost {S : Type} (body : nat -> S -> M S)
  (cost : nat -> nat) (I : nat -> S -> Prop) (n : nat) :
  forall i0 s,
    (forall i s', (i0 <= i < i0 + n)%nat -> I i s' ->
                  runs (body i s') (cost i) (I (Datatypes.S i))) ->
    I i0 s ->
    runs (for_range i0 n body s) (batchTotal cost i0 n) (I (i0 + n)%nat).
Proof.
  induction n as [| n IH]; intros i0 s Hbody Hs; simpl.
  - rewrite Nat.add_0_r. now apply runs_ret.
  - apply runs_bind with (P := I (Datatypes.S i0)).
    + apply Hbody; [lia | exact Hs].
    + intros s' Hs'. rewrite <- Nat.add_succ_comm. apply IH; [| exact Hs'].
      intros i s'' Hi. apply Hbody. lia.
Qed.

Lemma batchTotal_nth (cost : nat -> nat) (pre rest : list nat) :
  batchTotal (fun i => cost (nth i (pre ++ rest) O)) (length pre)
             (length rest)
  = list_sum (map cost rest).
Proof.
  revert pre. induction rest as [| d rest IH]; intros pre; [reflexivity |].
  cbn [length batchTotal map list_sum].
  rewrite app_nth2, Nat.sub_diag by lia. cbn [nth].
  change (list_sum (cost d :: map cost rest))
    with (cost d + list_sum (map cost rest))%nat.
  f_equal.
  replace (pre ++ d :: rest) with ((pre ++ [d]) ++ rest)
    by (rewrite <- app_assoc; reflexivity).
  replace (S (length pre)) with (length (pre ++ [d]))
    by (rewrite length_app; simpl; lia).
  apply IH.
Qed.

(** ** The result of the run *)

Lemma recordAll_length (dim : nat) (distances : list number) (st : Pass) :
  length (samples (recordAll dim distances st))
  = (length (samples st) + length distances)%nat.
Proof.
  revert st. unfold recordAll.
  induction distances as [| d ds IH]; intros st; cbn [fold_left length].
  - lia.
  - rewrite IH, record_length. lia.
Qed.

Lemma ensures_and {A : Type} (m : M A) (P Q : A -> Prop) :
  ensures m P -> ensures m Q -> ensures m (fun a => P a /\ Q a).
Proof. intros HP HQ t t' a E. split; [eapply HP | eapply HQ]; eauto. Qed.

Lemma runs_ensures {A : Type} (m : M A) (k : nat) (P Q : A -> Prop) :
  runs m k P -> ensures m Q -> runs m k Q.
Proof.
  intros Hr He t Hu Hc.
  destruct (Hr t Hu Hc) as (a & t' & E & _ & Hu' & Hn).
  exists a, t'. repeat split; auto. eapply He; eauto.
Qed.

Lemma samplingLoop_runs (dim : nat) (sampleSize : Z) (st : Pass) :
  runs (samplingLoop dim sampleSize st)
    (Z.to_nat sampleSize * (dim * 2 + (dim * 2 + 0)))
    (fun _ => True).
Proof.
  intros t Hu Hc. rewrite samplingLoop_unbatched.
  destruct (unbatchedLoop_runs dim sampleSize st t Hu Hc)
    as (a & t' & E & _ & Hu' & Hn).
  exists a, t'. auto.
Qed.

Lemma processDimension_step (dims : list nat) (sampleSizeOf : nat -> Z)
  (i : nat) (acc : list DimensionRecord * list (nat * list Sample)) :
  ensures (processDimension dims sampleSizeOf i acc)
    (stepOutcome (nth i dims O) (sampleSizeOf (nth i dims O)) acc).
Proof.
  unfold processDimension.
  eapply ensures_bind.
  { apply ensures_and;
      [apply samplingLoop_recordAll
      | apply (samplingLoop_inRange _ _ emptyPass); constructor]. }
  intros st [(distances & Hlen & Hst) Hrange].
  intros t t' acc'. unfold bind, lift, ret.
  destruct (finalizeStatistics _ _ st) as [stats | e] eqn:Efin;
    [| discriminate].
  intros E. inversion E; subst acc' t'. clear E.
  destruct (finalize_fields _ _ _ _ Efin) as (Hd & Hth & _).
  exists stats, (samples st). repeat split; auto.
  rewrite Hst, recordAll_length, Hlen. reflexivity.
Qed.

Lemma processDimension_runs (dims : list nat) (sampleSizeOf : nat -> Z)
  (i : nat) (acc : list DimensionRecord * list (nat * list Sample)) :
  runs (processDimension dims sampleSizeOf i acc)
    (Z.to_nat (sampleSizeOf (nth i dims O))
     * (nth i dims O * 2 + (nth i dims O * 2 + 0)))
    (stepOutcome (nth i dims O) (sampleSizeOf (nth i dims O)) acc).
Proof.
  eapply runs_ensures; [| apply processDimension_step].
  unfold processDimension.
  rewrite <- (Nat.add_0_r (_ * _)).
  eapply runs_bind; [apply samplingLoop_runs |].
  intros st _. unfold finalizeStatistics, lift.
  apply (runs_ret _ (fun _ => True)). exact I.
Qed.

Lemma firstn_succ_nth (l : list nat) (i : nat) :
  (i < length l)%nat -> firstn (S i) l = firstn i l ++ [nth i l O].
Proof.
  revert i. induction l as [| h r IH]; intros i Hi; [simpl in Hi; lia |].
  destruct i as [| i]; [reflexivity |].
  cbn [firstn nth app]. rewrite <- IH by (simpl in Hi; lia). reflexivity.
Qed.

Lemma runInvariant_step (dims : list nat) (sampleSizeOf : nat -> Z)
  (i : nat) (acc acc' : list DimensionRecord * list (nat * list Sample)) :
  (i < length dims)%nat ->
  runInvariant dims sampleSizeOf i acc ->
  stepOutcome (nth i dims O) (sampleSizeOf (nth i dims O)) acc acc' ->
  runInvariant dims sampleSizeOf (S i) acc'.
Proof.
  intros Hi (Hdims & Hth & Hin & Hout)
         (stats & smp & -> & Hd & Hst & Hlen & Hrange).
  unfold runInvariant. cbn [fst snd].
  rewrite (firstn_succ_nth dims i Hi).
  set (dim := nth i dims O) in *.
  split; [rewrite map_app, Hdims; simpl; now rewrite Hd |].
  split.
  { apply Forall_app. split; [exact Hth |].
    constructor; [now rewrite Hd | constructor]. }
  split.
  - intros k Hk.
    destruct (Nat.eq_dec k dim) as [-> | Hne].
    + exists smp. rewrite lookup_assign_same. auto.
    + rewrite lookup_assign_other by exact Hne. apply Hin.
      apply in_app_or in Hk as [Hk | [Hk | []]]; [exact Hk | congruence].
  - intros k Hk.
    rewrite lookup_assign_other.
    + apply Hout. intros H. apply Hk, in_or_app. now left.
    + intros ->. apply Hk, in_or_app. right. now left.
Qed.

Lemma runInvariant_start (dims : list nat) (sampleSizeOf : nat -> Z) :
  runInvariant dims sampleSizeOf 0 ([], []).
Proof.
  unfold runInvariant. cbn [fst snd firstn map].
  repeat split; try constructor; try reflexivity.
  intros k [].
Qed.

Lemma simulate_structure (dims : list nat) (sampleSizeOf : nat -> Z) :
  ensures (simulate dims sampleSizeOf)
    (fun d => dataDimensions d = dims
              /\ runInvariant dims sampleSizeOf (length dims)
                   (statistics d, distributionSamples d)).
Proof.
  unfold simulate.
  eapply ensures_bind.
  - apply (ensures_for_range_bounded
             (processDimension dims sampleSizeOf)
             (runInvariant dims sampleSizeOf) (length dims) 0 ([], [])).
    + intros i acc Hi Hacc t t' acc' E.
      apply (runInvariant_step dims sampleSizeOf i acc acc');
        [lia | exact Hacc |].
      exact (processDimension_step _ _ _ _ _ _ _ E).
    + apply runInvariant_start.
  - intros acc Hacc. apply ensures_ret. cbn [dataDimensions].
    split; [reflexivity |].
    cbn [statistics distributionSamples]. now destruct acc.
Qed.

Lemma simulate_runs (dims : list nat) (sampleSizeOf : nat -> Z) :
  runs (simulate dims sampleSizeOf) (drawsNeeded dims sampleSizeOf)
    (fun _ => True).
Proof.
  unfold simulate, drawsNeeded.
  rewrite <- (batchTotal_nth
                (fun dim => (Z.to_nat (sampleSizeOf dim)
                             * (dim * 2 + (dim * 2 + 0)))%nat) [] dims).
  rewrite <- (Nat.add_0_r (batchTotal _ _ _)).
  eapply runs_bind.
  - apply (runs_for_range_cost (processDimension dims sampleSizeOf) _
             (fun _ _ => True) (length dims) 0 ([], [])); [| exact I].
    intros i acc _ _.
    eapply runs_weaken; [| apply processDimension_runs]. auto.
  - intros acc _. apply (runs_ret _ (fun _ => True)). exact I.
Qed.

(** ** Histograms of a selection *)

Lemma set_length (v : list number) (i : nat) (x : number) :
  (i < length v)%nat -> length (JS.set v i x) = length v.
Proof.
  revert i. induction v as [| h r IH]; intros i Hi; [simpl in Hi; lia |].
  destruct i as [| i]; simpl; [reflexivity |].
  rewrite IH; [reflexivity | simpl in Hi; lia].
Qed.

Lemma index_below (b : number) (n : nat) :
  JS.leb (Fin 0) b = true -> JS.ltb b (JS.of_nat n) = true ->
  (JS.index b < n)%nat.
Proof.
  destruct b as [x | | |]; simpl; try discriminate.
  intros H0 Hn.
  destruct (Rle_dec 0 x) as [H0' |]; [| discriminate].
  destruct (Rlt_dec x (INR n)) as [Hn' |]; [| discriminate].
  pose proof (Zfloor_bound x) as [Hlo Hhi].
  assert (Hz : (Zfloor x < Z.of_nat n)%Z).
  { apply lt_IZR. rewrite <- INR_IZR_INZ. lra. }
  assert (Hz0 : (0 <= Zfloor x)%Z) by (apply Zfloor_lub; simpl; lra).
  lia.
Qed.

Lemma countValue_length (lo binSize : number) (n : nat)
  (bins : list number) (val : number) :
  length bins = n ->
  length (Histogram.countValue lo binSize n bins val) = n.
Proof.
  intros Hlen. unfold Histogram.countValue.
  destruct (JS.leb (Fin 0) _) eqn:E1; [| exact Hlen].
  destruct (JS.ltb _ (JS.of_nat n)) eqn:E2; [| exact Hlen].
  cbn [andb]. rewrite set_length; [exact Hlen |].
  rewrite Hlen. now apply index_below.
Qed.

Lemma fillBins_length (lo binSize : number) (n : nat)
  (values : list number) :
  length (Histogram.fillBins lo binSize n values) = n.
Proof.
  unfold Histogram.fillBins.
  assert (H : length (repeat (Fin 0) n) = n) by apply repeat_length.
  revert H. generalize (repeat (Fin 0) n).
  induction values as [| v vs IH]; intros bins Hb; cbn [fold_left];
    [exact Hb |].
  apply IH. now apply countValue_length.
Qed.

Lemma toChart_length (lo binSize : number) (total : nat)
  (bins : list number) :
  length (Histogram.toChart lo binSize total bins) = length bins.
Proof.
  unfold Histogram.toChart.
  rewrite length_map, length_combine, length_seq. lia.
Qed.

Lemma ofSamples_length (normalized : bool) (smp : list Sample) :
  length (Histogram.ofSamples normalized smp) = 40%nat.
Proof.
  unfold Histogram.ofSamples, Histogram.build.
  rewrite toChart_length. apply fillBins_length.
Qed.

Lemma forEachDimension_present (d : SimulationData) (normalized : bool)
  (sel : list nat) :
  (forall k, In k sel -> lookup (distributionSamples d) k <> None) ->
  forall h,
  exists h',
    Histogram.forEachDimension d normalized sel h = Normal h'
    /\ (forall k, In k sel ->
          exists smp,
            lookup (distributionSamples d) k = Some smp
            /\ lookup h' k = Some (Histogram.ofSamples normalized smp))
    /\ (forall k, ~ In k sel -> lookup h' k = lookup h k).
Proof.
  induction sel as [| dim rest IH]; intros Hall h;
    cbn [Histogram.forEachDimension].
  - exists h. split; [reflexivity |]. split; [intros k [] | reflexivity].
  - destruct (lookup (distributionSamples d) dim) as [smp |] eqn:El.
    + destruct (IH (fun k Hk => Hall k (or_intror Hk))
                   (assign h dim (Histogram.ofSamples normalized smp)))
        as (h' & E & Hin & Hout).
      exists h'. split; [exact E |]. split.
      * intros k [<- | Hk]; [| now apply Hin].
        destruct (in_dec Nat.eq_dec dim rest) as [Hr | Hr];
          [now apply Hin |].
        exists smp. split; [exact El |].
        rewrite (Hout dim Hr). apply lookup_assign_same.
      * intros k Hk. rewrite Hout by (intros H; apply Hk; now right).
        apply lookup_assign_other. intros ->. apply Hk. now left.
    + exfalso. apply (Hall dim); [now left | exact El].
Qed.

Lemma forEachDimension_missing (d : SimulationData) (normalized : bool)
  (sel : list nat) :
  (exists k, In k sel /\ lookup (distributionSamples d) k = None) ->
  forall h,
    Histogram.forEachDimension d normalized sel h = Abrupt TypeError.
Proof.
  induction sel as [| dim rest IH]; intros (k & Hk & El) h;
    [destruct Hk |].
  cbn [Histogram.forEachDimension].
  destruct (lookup (distributionSamples d) dim) as [smp |] eqn:Ed;
    [| reflexivity].
  apply IH. exists k. split; [| exact El].
  destruct Hk as [<- | Hk]; [congruence | exact Hk].
Qed.

(** ** Zero draws *)

Lemma dropZeros_zero (t : tape) : dropZeros (0 :: t) = dropZeros t.
Proof.
  simpl. destruct (Req_dec_T 0 0) as [_ | H]; [reflexivity | now elim H].
Qed.

Lemma dropZeros_nonzero (x : R) (t : tape) :
  x <> 0 -> dropZeros (x :: t) = x :: dropZeros t.
Proof.
  intros H. simpl. destruct (Req_dec_T x 0); [contradiction | reflexivity].
Qed.

Lemma dropZeros_idem (t : tape) : dropZeros (dropZeros t) = dropZeros t.
Proof.
  induction t as [| x t IH]; [reflexivity |].
  destruct (Req_dec_T x 0) as [-> | Hx].
  - now rewrite dropZeros_zero.
  - rewrite !dropZeros_nonzero, IH by exact Hx. reflexivity.
Qed.

Lemma redraw_dropZeros (t : tape) :
  match redraw t with
  | None => dropZeros t = []
  | Some (c, r) => exists x, c = Normal x /\ dropZeros t = x :: dropZeros r
  end.
Proof.
  induction t as [| x t IH]; [reflexivity |].
  destruct (Req_dec_T x 0) as [-> | Hx].
  - rewrite redraw_zero, dropZeros_zero. exact IH.
  - rewrite redraw_nonzero, dropZeros_nonzero by exact Hx.
    now exists x.
Qed.

Lemma zeroBlind_redraw : zeroBlind redraw.
Proof.
  intros t1 t2 Heq.
  pose proof (redraw_dropZeros t1) as H1.
  pose proof (redraw_dropZeros t2) as H2.
  destruct (redraw t1) as [[c1 r1] |], (redraw t2) as [[c2 r2] |].
  - destruct H1 as (x1 & -> & E1), H2 as (x2 & -> & E2).
    rewrite Heq, E2 in E1. injection E1 as -> ->. auto.
  - destruct H1 as (x1 & _ & E1). congruence.
  - destruct H2 as (x2 & _ & E2). congruence.
  - exact I.
Qed.

Lemma zeroBlind_ret {A : Type} (a : A) : zeroBlind (ret a).
Proof. intros t1 t2 Heq. unfold ret. auto. Qed.

Lemma zeroBlind_lift {A : Type} (c : completion A) : zeroBlind (lift c).
Proof. intros t1 t2 Heq. unfold lift. auto. Qed.

Lemma zeroBlind_bind {A B : Type} (m : M A) (f : A -> M B) :
  zeroBlind m -> (forall a, zeroBlind (f a)) -> zeroBlind (bind m f).
Proof.
  intros Hm Hf t1 t2 Heq. unfold bind.
  specialize (Hm t1 t2 Heq).
  destruct (m t1) as [[[a1 | e1] r1] |], (m t2) as [[[a2 | e2] r2] |];
    try contradiction; try (destruct Hm; discriminate); auto.
  - destruct Hm as [E Hr]. injection E as ->. now apply Hf.
  - destruct Hm as [E Hr]. injection E as ->. auto.
Qed.

Lemma zeroBlind_for_range {S : Type} (body : nat -> S -> M S) :
  (forall i s, zeroBlind (body i s)) ->
  forall n i s, zeroBlind (for_range i n body s).
Proof.
  intros Hbody n.
  induction n as [| n IH]; intros i s; simpl.
  - apply zeroBlind_ret.
  - apply zeroBlind_bind; [apply Hbody | intros s'; apply IH].
Qed.

Lemma zeroBlind_generate (dimension : nat) :
  zeroBlind (generateRandomUnitVector dimension).
Proof.
  unfold generateRandomUnitVector.
  apply zeroBlind_bind; [| intros st; apply zeroBlind_ret].
  apply zeroBlind_for_range. intros i st. unfold fillStep.
  apply zeroBlind_bind; [| intros val; apply zeroBlind_ret].
  unfold normalRandom.
  apply zeroBlind_bind; [apply zeroBlind_redraw | intros u].
  apply zeroBlind_bind; [apply zeroBlind_redraw | intros v].
  apply zeroBlind_ret.
Qed.

Lemma zeroBlind_simulate (dims : list nat) (sampleSizeOf : nat -> Z) :
  zeroBlind (simulate dims sampleSizeOf).
Proof.
  unfold simulate.
  apply zeroBlind_bind; [| intros acc; apply zeroBlind_ret].
  apply zeroBlind_for_range. intros i acc. unfold processDimension.
  apply zeroBlind_bind;
    [| intros st; apply zeroBlind_bind;
       [apply zeroBlind_lift | intros stats; apply zeroBlind_ret]].
  unfold samplingLoop.
  apply zeroBlind_for_range. intros batch st.
  apply zeroBlind_for_range. intros j st'. unfold drawSample.
  apply zeroBlind_bind; [apply zeroBlind_generate | intros vector1].
  apply zeroBlind_bind; [apply zeroBlind_generate | intros vector2].
  apply zeroBlind_bind; [apply zeroBlind_lift | intros distance].
  apply zeroBlind_ret.
Qed.

(** ** Histograms that drop values *)

Lemma binOf_inDomain (lo hi : R) (n : nat) (v : R) :
  lo < hi -> (0 < n)%nat ->
  (inDomain lo hi v = true ->
   exists b, binOf lo hi n v = Some b /\ (b < n)%nat)
  /\ (inDomain lo hi v = false -> binOf lo hi n v = None).
Proof.
  intros Hd Hn. unfold inDomain.
  destruct (Rle_dec lo v) as [H1 | H1];
    [destruct (Rlt_dec v hi) as [H2 | H2] |]; split; intros E;
    try discriminate.
  - destruct (binOf lo hi n v) as [b |] eqn:Eb.
    + exists b. split; [reflexivity |].
      now destruct (countValue_in lo hi n [] v b Hd Hn Eb).
    + unfold binOf in Eb.
      destruct (Rle_dec lo v); [| contradiction].
      destruct (Rlt_dec v hi); [discriminate | contradiction].
  - apply binOf_domain. lra.
  - apply binOf_domain. lra.
Qed.

(** The counts of all bins add up to the number of values of the
    domain. *)
Lemma counts_total (lo hi : R) (n : nat) (vs : list R) :
  lo < hi -> (0 < n)%nat ->
  list_sum (map (fun i => countAt lo hi n i vs) (seq 0 n))
  = length (filter (inDomain lo hi) vs).
Proof.
  intros Hd Hn.
  induction vs as [| v vs IH].
  - unfold countAt. cbn [filter length]. apply list_sum_zero.
  - rewrite (map_ext _ _ (fun i => countAt_cons lo hi n i v vs)).
    rewrite (list_sum_add (fun i => if inBin lo hi n i v then 1 else 0)%nat).
    rewrite IH. cbn [filter].
    destruct (binOf_inDomain lo hi n v Hd Hn) as [Hin Hout].
    destruct (inDomain lo hi v) eqn:E.
    + destruct (Hin eq_refl) as (b & Eb & Hb).
      unfold inBin. rewrite Eb, list_sum_indicator by lia. reflexivity.
    + unfold inBin. rewrite (Hout eq_refl), list_sum_zero. reflexivity.
Qed.

Lemma integral_fraction (lo hi : R) (n : nat) (vs : list R) :
  lo < hi -> (0 < n)%nat -> vs <> [] ->
  integral (Fin (binWidth lo hi n))
    (Histogram.build (Fin lo) (Fin hi) n (map Fin vs) (length vs))
  = Fin (INR (length (filter (inDomain lo hi) vs)) / INR (length vs)).
Proof.
  intros Hd Hn Hne.
  assert (Ht : (0 < length vs)%nat)
    by (destruct vs; [contradiction | simpl; lia]).
  rewrite build_fin by assumption.
  unfold integral. rewrite integral_from. f_equal.
  pose proof (binWidth_pos lo hi n Hd Hn) as Hw.
  assert (HT : INR (length vs) <> 0) by (apply not_0_INR; lia).
  rewrite (map_ext _ (fun i => INR (countAt lo hi n i vs)
                               * / INR (length vs))).
  - rewrite sumR_scaled_counts, counts_total by assumption. field. exact HT.
  - intros i. field. split; lra.
Qed.

Lemma recorded_samples (dim : nat) (ds : list R) :
  samples (recordAll dim (map Fin ds) emptyPass)
  = map (fun d => mkSample (Fin (clampR d)) (Fin (normR dim (clampR d)))) ds.
Proof.
  now destruct (recordAll_fin dim ds emptyPass 0 0 eq_refl eq_refl)
    as (Hs & _).
Qed.

Lemma scale_below_three (dim : nat) :
  (dim <= 8)%nat -> 0 <= sqrt (INR dim) * alpha dim < 3.
Proof.
  intros Hd.
  assert (H8 : INR dim <= 8).
  { replace 8 with (INR 8) by (simpl; lra). now apply le_INR. }
  pose proof (pos_INR dim) as H0.
  pose proof (sqrt_pos (INR dim)) as Hs0.
  assert (Hsq : sqrt (INR dim) * sqrt (INR dim) = INR dim)
    by (apply sqrt_sqrt; exact H0).
  unfold alpha. destruct (Nat.leb_spec dim 3) as [H3 | H3].
  - assert (H3' : INR dim <= 3).
    { replace 3 with (INR 3) by (simpl; lra). now apply le_INR. }
    split; [lra |]. nra.
  - split; [lra |]. nra.
Qed.

Lemma normR_range (dim : nat) (c : R) :
  (dim <= 8)%nat -> 0 <= c <= 2 -> -2 <= normR dim c < 4.
Proof.
  intros Hd Hc. pose proof (scale_below_three dim Hd) as Hk.
  unfold normR. rewrite Rmult_assoc.
  set (k := sqrt (INR dim) * alpha dim) in *. split; nra.
Qed.

Lemma inDomain_clamped (d : R) :
  inDomain 0 2 (clampR d) = if Rlt_dec d 2 then true else false.
Proof.
  pose proof (clamp_range d) as Hc. fold (clampR d) in Hc.
  unfold inDomain.
  destruct (Rle_dec 0 (clampR d)); [| lra].
  unfold clampR, Rmax, Rmin in *.
  destruct (Rle_dec 2 d); destruct (Rle_dec 0 _);
    destruct (Rlt_dec _ 2); destruct (Rlt_dec d 2); try reflexivity; lra.
Qed.

Lemma filter_clamped_length (ds : list R) :
  length (filter (inDomain 0 2) (map clampR ds))
  = length (filter (fun d => if Rlt_dec d 2 then true else false) ds).
Proof.
  induction ds as [| d ds IH]; [reflexivity |].
  cbn [map filter]. rewrite inDomain_clamped.
  destruct (Rlt_dec d 2); cbn [length]; now rewrite IH.
Qed.

(** ** The formula-based component *)

Lemma formulaic_countValue_fin (lo hi w : R) (n : nat)
  (bins : list number) (v : R) :
  Formulaic.countValue (Fin lo) (Fin hi) (Fin w) n bins (Fin v)
  = Histogram.countValue (Fin lo) (Fin w) n bins (Fin (clampInto lo hi v)).
Proof.
  unfold Formulaic.countValue, Histogram.countValue, clampInto.
  cbn [JS.sub JS.neg JS.add].
  change (hi + - 0.001) with (hi - 0.001).
  rewrite min_fin, max_fin. reflexivity.
Qed.

Lemma formulaic_fold_fin (lo hi w : R) (n : nat) (vs : list R) :
  forall bins,
    fold_left (Formulaic.countValue (Fin lo) (Fin hi) (Fin w) n)
              (map Fin vs) bins
    = fold_left (Histogram.countValue (Fin lo) (Fin w) n)
                (map Fin (map (clampInto lo hi) vs)) bins.
Proof.
  induction vs as [| v vs IH]; intros bins; cbn [map fold_left];
    [reflexivity |].
  now rewrite formulaic_countValue_fin, IH.
Qed.

Lemma formulaic_build_fin (lo hi : R) (n total : nat) (vs : list R) :
  (0 < n)%nat ->
  Formulaic.build (Fin lo) (Fin hi) n (map Fin vs) total
  = Histogram.build (Fin lo) (Fin hi) n
      (map Fin (map (clampInto lo hi) vs)) total.
Proof.
  intros Hn. unfold Formulaic.build, Histogram.build, Histogram.fillBins.
  rewrite binSize_fin by exact Hn.
  now rewrite formulaic_fold_fin.
Qed.

Lemma clampInto_domain (lo hi v : R) :
  lo < hi -> lo <= clampInto lo hi v < hi.
Proof.
  intros Hd. unfold clampInto, Rmax, Rmin.
  destruct (Rle_dec (hi - 0.001) v); destruct (Rle_dec lo _); lra.
Qed.

Lemma forty : INR 40 = 40.
Proof. simpl. lra. Qed.

Lemma binOf_last (v : R) :
  1.999 <= v -> binOf 0 2 40 (clampInto 0 2 v) = Some 39%nat.
Proof.
  intros Hv.
  assert (Ec : clampInto 0 2 v = 1.999).
  { unfold clampInto, Rmax, Rmin.
    destruct (Rle_dec (2 - 0.001) v); destruct (Rle_dec 0 _); lra. }
  rewrite Ec.
  rewrite (proj1 (binOf_domain 0 2 40 1.999)) by lra.
  do 2 f_equal. unfold binWidth. rewrite forty.
  change 39%nat with (Z.to_nat 39). f_equal.
  apply Zfloor_eq. lra.
Qed.

Lemma binOf_first (v : R) :
  v <= 0 -> binOf 0 2 40 (clampInto 0 2 v) = Some 0%nat.
Proof.
  intros Hv.
  assert (Ec : clampInto 0 2 v = 0).
  { unfold clampInto, Rmax, Rmin.
    destruct (Rle_dec (2 - 0.001) v); destruct (Rle_dec 0 _); lra. }
  rewrite Ec.
  rewrite (proj1 (binOf_domain 0 2 40 0)) by lra.
  do 2 f_equal. unfold binWidth. rewrite forty.
  change 0%nat with (Z.to_nat 0). f_equal.
  apply Zfloor_eq. simpl. lra.
Qed.

Lemma formulaic_drawSample_two (dim i : nat) (smp : list Sample)
  (u1 u2 : R) (t : tape) :
  Formulaic.drawSample dim (JS.div (Fin 1) (JS.sqrt (JS.of_nat dim))) i smp
    (u1 :: u2 :: t)
  = Some (Normal (smp ++ [mkSample (formulaDistance dim u1 u2)
                            (normalize (formulaDistance dim u1 u2) dim)]),
          t).
Proof. reflexivity. Qed.

Lemma formulaic_loop (dim count : nat) :
  forall (i : nat) (smp : list Sample) (t : tape),
    (2 * count <= length t)%nat ->
    Forall (fun s => inRange (originalDistance s)) smp ->
    exists smp',
      for_range i count
        (Formulaic.drawSample dim (JS.div (Fin 1) (JS.sqrt (JS.of_nat dim))))
        smp t
      = Some (Normal smp', skipn (2 * count) t)
      /\ length smp' = (length smp + count)%nat
      /\ Forall (fun s => inRange (originalDistance s)) smp'.
Proof.
  induction count as [| count IH]; intros i smp t Hlen Hr.
  - exists smp. cbn [for_range]. unfold ret. simpl. split; [reflexivity |].
    split; [lia | exact Hr].
  - destruct t as [| u1 [| u2 t]]; try (simpl in Hlen; lia).
    cbn [for_range]. unfold bind at 1.
    rewrite formulaic_drawSample_two.
    destruct (IH (S i)
                 (smp ++ [mkSample (formulaDistance dim u1 u2)
                            (normalize (formulaDistance dim u1 u2) dim)])
                 t)
      as (smp' & E & Hl & Hr').
    + simpl in Hlen. lia.
    + apply Forall_app. split; [exact Hr |].
      constructor; [| constructor]. cbn [originalDistance].
      apply clampDistance_cases.
    + exists smp'. split.
      * rewrite E. f_equal. f_equal.
        replace (2 * S count)%nat with (S (S (2 * count))) by lia.
        reflexivity.
      * split; [| exact Hr']. rewrite Hl, length_app. simpl. lia.
Qed.

Lemma formulaic_samplesFor (count dim : nat) (t : tape) :
  (2 * count <= length t)%nat ->
  exists smp,
    Formulaic.samplesFor count dim t = Some (Normal smp, skipn (2 * count) t)
    /\ length smp = count
    /\ Forall (fun s => inRange (originalDistance s)) smp.
Proof.
  intros Hlen. unfold Formulaic.samplesFor.
  destruct (formulaic_loop dim count 0 [] t Hlen (Forall_nil _))
    as (smp & E & Hl & Hr).
  exists smp. auto.
Qed.

Lemma formulaic_forEachDimension (count : nat) (dims : list nat) :
  forall (acc : list (nat * list Sample)) (t : tape),
    (2 * count * length dims <= length t)%nat ->
    exists acc',
      Formulaic.forEachDimension count dims acc t
      = Some (Normal acc', skipn (2 * count * length dims) t)
      /\ (forall k, In k dims ->
            exists smp,
              lookup acc' k = Some smp
              /\ length smp = count
              /\ Forall (fun s => inRange (originalDistance s)) smp)
      /\ (forall k, ~ In k dims -> lookup acc' k = lookup acc k).
Proof.
  induction dims as [| dim rest IH]; intros acc t Hlen.
  - exists acc. cbn [Formulaic.forEachDimension length]. unfold ret.
    rewrite Nat.mul_0_r. cbn [skipn].
    split; [reflexivity |]. split; [intros k [] | reflexivity].
  - cbn [length] in Hlen.
    destruct (formulaic_samplesFor count dim t ltac:(lia))
      as (smp & Es & Hl & Hr).
    destruct (IH (assign acc dim smp) (skipn (2 * count) t))
      as (acc' & E & Hin & Hout).
    { rewrite length_skipn. lia. }
    exists acc'. cbn [Formulaic.forEachDimension]. unfold bind.
    rewrite Es, E, skipn_skipn. split.
    + do 3 f_equal. cbn [length]. lia.
    + split.
      * intros k [<- | Hk]; [| now apply Hin].
        destruct (in_dec Nat.eq_dec dim rest) as [Hd | Hd];
          [now apply Hin |].
        exists smp. rewrite (Hout dim Hd), lookup_assign_same. auto.
      * intros k Hk. rewrite Hout by (intros H; apply Hk; now right).
        apply lookup_assign_other. intros ->. apply Hk. now left.
Qed.

Lemma boxMuller_zero (u2 : R) :
  boxMuller 0 u2 = JS.inf_of (JS.sgn (cos (2 * PI * u2))).
Proof.
  unfold boxMuller. cbn [JS.log].
  rewrite (sgn_zero 0 eq_refl). cbn [JS.mul].
  rewrite (sgn_pos (- -2)) by lra.
  reflexivity.
Qed.

(** ** The clamped distance in the sampling loop *)



(** * The claims *)



(** C2, as amended.  The code keeps no online mean or sum of squared
    deviations: for the original distances it accumulates their sum and
    the sum of their squares, and takes [sumSq / n - mean * mean] as the
    variance; for the normalized distances it makes two passes over the
    stored samples.  In exact arithmetic the mean and the population
    standard deviation that it computes, original and normalized, are
    those that the online accumulator of the specification finalizes on
    the same observations.  The pass that the sampling loops return is
    such a record of [sampleSize] distances. *)
Theorem naive_statistics_agree_with_online (dim : nat) (ds : list R) :
  ds <> [] ->
  let st := recordAll dim (map Fin ds) emptyPass in
  sumDistances st = Fin (sumR (map clampR ds))
  /\ sumSquaredDistances st = Fin (sumSquares (map clampR ds))
  /\ exists stats,
       finalizeStatistics dim (Z.of_nat (length ds)) st = Normal stats
       /\ Welford.finalize
            (Welford.updateAll (map originalDistance (samples st)))
          = Normal (originalMean stats, originalStd stats)
       /\ Welford.finalize
            (Welford.updateAll (map normalizedDistance (samples st)))
          = Normal (normalizedMean stats, normalizedStd stats)
       /\ originalMean stats
          = Fin (sumR (map clampR ds) / INR (length ds))
       /\ originalStd stats
          = Fin (sqrt (devSquares (sumR (map clampR ds) / INR (length ds))
                                  (map clampR ds)
                       / INR (length ds)))
       /\ (forall sampleSize t st' t',
             samplingLoop dim sampleSize emptyPass t
             = Some (Normal st', t') ->
             exists distances,
               length distances = Z.to_nat sampleSize
               /\ st' = recordAll dim distances emptyPass).
Proof.
  intros Hne st.
  assert (Hn : INR (length ds) <> 0).
  { apply not_0_INR. destruct ds; [contradiction | simpl; lia]. }
  destruct (recordAll_fin dim ds emptyPass 0 0 eq_refl eq_refl)
    as (Hs & Hsum & Hsq).
  cbn [samples emptyPass app] in Hs. fold st in Hs, Hsum, Hsq.
  split; [rewrite Hsum; f_equal; lra |].
  split; [rewrite Hsq; f_equal; lra |].
  destruct (finalize_fin dim ds Hne)
    as (stats & Efin & Hom & Hos & Hnm & Hns).
  fold st in Efin.
  exists stats. split; [exact Efin |].
  set (cs := map clampR ds) in *.
  set (vs := map (normR dim) cs) in *.
  assert (Hcs : cs <> [])
    by (unfold cs; destruct ds; [contradiction | discriminate]).
  assert (Hvs : vs <> [])
    by (unfold vs; destruct cs; [contradiction | discriminate]).
  assert (Lcs : length cs = length ds) by (unfold cs; apply length_map).
  assert (Lvs : length vs = length ds)
    by (unfold vs; rewrite length_map; exact Lcs).
  split; [| split; [| split; [exact Hom | split]]];
    [| | | intros sampleSize t st' t' E;
           exact (samplingLoop_recordAll dim sampleSize emptyPass _ _ _ E)].
  - rewrite Hs, map_originalDistance. fold cs.
    rewrite (welford_of_finite cs Hcs), Lcs, Hom, Hos. reflexivity.
  - rewrite Hs, map_normalizedDistance. fold cs vs.
    rewrite (welford_of_finite vs Hvs), Lvs, Hnm, Hns.
    assert (Ev : sumSquares vs / INR (length ds)
                 - sumR vs / INR (length ds) * (sumR vs / INR (length ds))
                 = devSquares (sumR vs / INR (length ds)) vs
                   / INR (length ds)).
    { rewrite devSquares_expand, Lvs. field. exact Hn. }
    now rewrite Ev.
  - rewrite Hos.
    assert (Ev : sumSquares cs / INR (length ds)
                 - sumR cs / INR (length ds) * (sumR cs / INR (length ds))
                 = devSquares (sumR cs / INR (length ds)) cs
                   / INR (length ds)).
    { rewrite devSquares_expand, Lcs. field. exact Hn. }
    rewrite Ev. apply sqrt_fin.
    apply Rmult_le_pos; [apply devSquares_nonneg |].
    left. apply Rinv_0_lt_compat.
    pose proof (pos_INR (length ds)). lra.
Qed.

Lemma naive_statistics_agree_with_online_witness :
  [0; 2] <> ([] : list R)
  /\ exists stats,
       finalizeStatistics 2 (Z.of_nat (length [0; 2]))
         (recordAll 2 (map Fin [0; 2]) emptyPass) = Normal stats
       /\ Welford.finalize
            (Welford.updateAll
               (map originalDistance
                  (samples (recordAll 2 (map Fin [0; 2]) emptyPass))))
          = Normal (originalMean stats, originalStd stats).
Proof.
  assert (Hne : [0; 2] <> ([] : list R)) by discriminate.
  split; [exact Hne |].
  destruct (naive_statistics_agree_with_online 2 [0; 2] Hne)
    as (_ & _ & stats & Efin & Ho & _).
  exists stats. split; [exact Efin | exact Ho].
Defined.

(** C2, the sentence as written fails: after the distances 0 and 2 the
    pass holds the sum 2 and the sum of squares 4, where the online
    accumulator would hold the mean 1 and the sum of squared deviations
    2. *)
Lemma pass_keeps_sums_not_online_state :
  sumDistances (recordAll 2 [Fin 0; Fin 2] emptyPass) = Fin 2
  /\ sumSquaredDistances (recordAll 2 [Fin 0; Fin 2] emptyPass) = Fin 4
  /\ Welford.updateAll [Fin 0; Fin 2] = Welford.mkAcc 2 (Fin 1) (Fin 2)
  /\ sumDistances (recordAll 2 [Fin 0; Fin 2] emptyPass)
     <> Welford.mean (Welford.updateAll [Fin 0; Fin 2])
  /\ sumSquaredDistances (recordAll 2 [Fin 0; Fin 2] emptyPass)
     <> Welford.M2 (Welford.updateAll [Fin 0; Fin 2]).
Proof.
  destruct (recordAll_fin 2 [0; 2] emptyPass 0 0 eq_refl eq_refl)
    as (_ & Hsum & Hsq).
  cbn [map sumR sumSquares] in Hsum, Hsq.
  rewrite (clampR_idle 0), (clampR_idle 2) in Hsum, Hsq by lra.
  assert (E1 : sumDistances (recordAll 2 [Fin 0; Fin 2] emptyPass) = Fin 2).
  { rewrite Hsum. f_equal. lra. }
  assert (E2 : sumSquaredDistances (recordAll 2 [Fin 0; Fin 2] emptyPass)
               = Fin 4).
  { rewrite Hsq. f_equal. lra. }
  assert (E3 : Welford.updateAll [Fin 0; Fin 2]
               = Welford.mkAcc 2 (Fin 1) (Fin 2)).
  { unfold Welford.updateAll, Welford.empty.
    destruct (welford_invariant [0; 2] 0 0 0 0 0)
      as (m & q & Hfold & Hm & Hq); [simpl; lra | simpl; lra |].
    change [Fin 0; Fin 2] with (map Fin [0; 2]). rewrite Hfold.
    cbn [Nat.add length sumR sumSquares INR] in Hm, Hq |- *.
    assert (Em : m = 1) by lra.
    rewrite Em in Hq.
    assert (Eq : q = 2) by lra.
    now rewrite Em, Eq. }
  rewrite E1, E2, E3. cbn [Welford.mean Welford.M2].
  repeat split; try (intros H; injection H as H; lra).
Qed.

(** C3, as amended.  [calculateCosineDistance] compares no lengths and
    never fails.  It walks the indices of its first argument: when the
    second argument is at least as long, its surplus coordinates are
    ignored and one minus the dot product over the common prefix is
    returned; when the second argument is shorter, the reads past its
    end make the result [NaN]. *)
Theorem distance_has_no_length_check (xs ys : list R) :
  calculateCosineDistance (map Fin xs) (map Fin ys)
  = Normal (if (length xs <=? length ys)%nat
            then Fin (1 - dotR xs ys) else NaN)
  /\ forall (vec1 vec2 : list number) (e : Error),
       calculateCosineDistance vec1 vec2 <> Abrupt e.
Proof.
  split; [apply distance_value | discriminate].
Qed.

(** C3, the sentence as written fails: two vectors of lengths 1 and 2
    yield the number 0, and of lengths 2 and 1 yield [NaN]; neither call
    fails. *)
Lemma distance_of_unequal_lengths_returns :
  length [Fin 1] <> length [Fin 1; Fin 0]
  /\ calculateCosineDistance [Fin 1] [Fin 1; Fin 0] = Normal (Fin 0)
  /\ calculateCosineDistance [Fin 1; Fin 0] [Fin 1] = Normal NaN
  /\ calculateCosineDistance [Fin 1] [Fin 1; Fin 0]
     <> Abrupt DimensionMismatch.
Proof.
  repeat split; try discriminate.
  unfold calculateCosineDistance, dotLoop. simpl. do 2 f_equal. lra.
Qed.

(** C8.  The rescaling applied to a distance [x] in dimension [d] is
    [(x - 1) * sqrt d * alpha + 1] with [alpha = 1.5] for [d <= 3] and
    [alpha = 1] otherwise; 1 is a fixed point in every dimension; in
    dimension 3 the distance 2 goes to [1.5 * sqrt 3 + 1], about 3.598,
    and in dimension 4 it goes to 3. *)
Theorem normalize_formula (x : R) (d : nat) :
  normalize (Fin x) d = Fin ((x - 1) * sqrt (INR d) * alpha d + 1)
  /\ alpha d = (if (d <=? 3)%nat then 1.5 else 1)
  /\ normalize (Fin 1) d = Fin 1
  /\ normalize (Fin 2) 3 = Fin (1.5 * sqrt 3 + 1)
  /\ 3.598 < 1.5 * sqrt 3 + 1 < 3.5982
  /\ normalize (Fin 2) 4 = Fin 3.
Proof.
  split; [apply normalize_fin |].
  split; [reflexivity |].
  split; [rewrite normalize_fin; f_equal; ring |].
  split.
  { rewrite normalize_fin. unfold alpha. simpl (3 <=? 3)%nat.
    f_equal. replace (INR 3) with 3 by (simpl; lra). lra. }
  split; [pose proof sqrt3_bounds; lra |].
  rewrite normalize_fin. unfold alpha. simpl (4 <=? 3)%nat.
  replace (INR 4) with 4 by (simpl; lra). rewrite sqrt4. f_equal. lra.
Qed.

(** C9.  For a sample count [n > 0] the batched loops run
    [ceil (n / 100)] batches, each of 100 samples but for a last one of
    [n mod 100] when 100 does not divide [n]; the batch sizes add up to
    [n]; on every tape the batched loops and the single loop of [n]
    iterations end in the same state (the same samples in the same
    order, the same running sums, the same tape), hence in the same
    statistics; and on a tape with enough non-zero draws they return
    with exactly [n] samples added. *)
Theorem batching_is_transparent
  (dim : nat) (sampleSize : Z) (st : Pass) (t : tape) :
  (0 < sampleSize)%Z ->
  samplingLoop dim sampleSize st t = unbatchedLoop dim sampleSize st t
  /\ (st' <- samplingLoop dim sampleSize st ;;
      lift (finalizeStatistics dim sampleSize st')) t
     = (st' <- unbatchedLoop dim sampleSize st ;;
        lift (finalizeStatistics dim sampleSize st')) t
  /\ batches sampleSize
     = (sampleSize / 100 + (if (sampleSize mod 100 =? 0)%Z then 0 else 1))%Z
  /\ (forall batch : nat,
        ((Z.of_nat batch < sampleSize / 100)%Z ->
         currentBatchSize sampleSize batch = 100%Z)
        /\ (Z.of_nat batch = (sampleSize / 100)%Z ->
            currentBatchSize sampleSize batch = (sampleSize mod 100)%Z))
  /\ batchTotal (fun batch => Z.to_nat (currentBatchSize sampleSize batch))
                0 (Z.to_nat (batches sampleSize))
     = Z.to_nat sampleSize
  /\ (uniform t ->
      (Z.to_nat sampleSize * (4 * dim) <= nonzeroCount t)%nat ->
      exists (st' : Pass) (t' : tape),
        samplingLoop dim sampleSize st t = Some (Normal st', t')
        /\ length (samples st')
           = (length (samples st) + Z.to_nat sampleSize)%nat).
Proof.
  intros Hpos.
  split; [apply samplingLoop_unbatched |].
  split.
  { unfold bind. now rewrite samplingLoop_unbatched. }
  split; [now apply batches_of_positive |].
  split; [intros batch; now apply batch_sizes |].
  split; [apply batchTotal_all |].
  intros Hu Hc. rewrite samplingLoop_unbatched.
  destruct (unbatchedLoop_runs dim sampleSize st t Hu ltac:(lia))
    as (st' & t' & E & Hlen & _).
  exists st', t'. auto.
Qed.

Lemma batching_is_transparent_witness :
  (0 < 250)%Z
  /\ samplingLoop 1 250 emptyPass (halves 1000)
     = unbatchedLoop 1 250 emptyPass (halves 1000)
  /\ batches 250 = 3%Z
  /\ currentBatchSize 250 0 = 100%Z
  /\ currentBatchSize 250 1 = 100%Z
  /\ currentBatchSize 250 2 = 50%Z
  /\ exists (st' : Pass) (t' : tape),
       samplingLoop 1 250 emptyPass (halves 1000) = Some (Normal st', t')
       /\ length (samples st') = Z.to_nat 250.
Proof.
  split; [lia |].
  destruct (batching_is_transparent 1 250 emptyPass (halves 1000)
              ltac:(lia))
    as (Heq & _ & Hb & Hsizes & _ & Hrun).
  split; [exact Heq |].
  split; [rewrite Hb; reflexivity |].
  split; [apply (Hsizes 0%nat); reflexivity |].
  split; [apply (Hsizes 1%nat); reflexivity |].
  split; [apply (Hsizes 2%nat); reflexivity |].
  apply Hrun; [apply uniform_halves |].
  rewrite nonzeroCount_halves. lia.
Defined.




(** * Further properties of the code *)

(** X1.  A click on a dimension button keeps the selection strictly
    ascending and of at most four dimensions, and brings in no dimension
    other than the one clicked. *)
Theorem toggleDimension_keeps_selection_small_and_sorted
  (sel : list nat) (dim : nat) :
  ascending sel ->
  (length sel <= 4)%nat ->
  ascending (toggleDimension sel dim)
  /\ (length (toggleDimension sel dim) <= 4)%nat
  /\ (forall x, In x (toggleDimension sel dim) -> In x sel \/ x = dim).
Proof.
  intros Hasc Hlen.
  destruct (in_dec Nat.eq_dec dim sel) as [Hin | Hout].
  - rewrite toggleDimension_remove by exact Hin.
    split; [now apply filter_ascending |].
    split.
    + pose proof (filter_length_le (fun d => negb (d =? dim)%nat) sel). lia.
    + intros x Hx. apply filter_out_In in Hx. tauto.
  - destruct (Nat.lt_ge_cases (length sel) 4) as [Hlt | Hge].
    + rewrite toggleDimension_add by assumption.
      split.
      * apply sortAscending_ascending.
        apply NoDup_app;
          [now apply ascending_NoDup
          | repeat constructor; simpl; tauto |].
        intros x Hx [-> | []]. contradiction.
      * split.
        -- rewrite sortAscending_length, length_app. simpl. lia.
        -- intros x Hx. apply sortAscending_In, in_app_or in Hx.
           destruct Hx as [Hx | [-> | []]]; auto.
    + rewrite toggleDimension_full by assumption. auto.
Qed.

Lemma toggleDimension_keeps_selection_small_and_sorted_witness :
  ascending [2; 32; 128]%nat
  /\ (length [2; 32; 128]%nat <= 4)%nat
  /\ ascending (toggleDimension [2; 32; 128]%nat 8)
  /\ (length (toggleDimension [2; 32; 128]%nat 8) <= 4)%nat.
Proof.
  assert (Ha : ascending [2; 32; 128]%nat).
  { unfold ascending. repeat constructor; lia. }
  assert (Hl : (length [2; 32; 128]%nat <= 4)%nat) by (simpl; lia).
  split; [exact Ha |]. split; [exact Hl |].
  destruct (toggleDimension_keeps_selection_small_and_sorted
              [2; 32; 128]%nat 8 Ha Hl) as (H1 & H2 & _).
  split; [exact H1 | exact H2].
Defined.

(** X2.  On a strictly ascending selection of at most four dimensions,
    clicking the same button twice restores the selection whenever the
    first click has an effect, that is when the dimension is selected or
    fewer than four are; and with four dimensions selected, a click on a
    dimension that is not selected changes nothing. *)
Theorem toggleDimension_twice (sel : list nat) (dim : nat) :
  ascending sel ->
  (length sel <= 4)%nat ->
  (In dim sel \/ (length sel < 4)%nat ->
   toggleDimension (toggleDimension sel dim) dim = sel)
  /\ (~ In dim sel -> (4 <= length sel)%nat ->
      toggleDimension sel dim = sel).
Proof.
  intros Hasc Hmax. split.
  - intros Heffect.
    destruct (in_dec Nat.eq_dec dim sel) as [Hin | Hout].
    + rewrite (toggleDimension_remove sel dim Hin).
      set (rest := filter (fun d => negb (d =? dim)%nat) sel).
      assert (Hrest : ~ In dim rest)
        by (unfold rest; rewrite filter_out_In; tauto).
      assert (Hlen : (length rest < length sel)%nat)
        by (unfold rest; now apply filter_out_shorter).
      rewrite toggleDimension_add by (assumption || lia).
      apply ascending_unique.
      * apply sortAscending_ascending.
        apply NoDup_app;
          [apply ascending_NoDup; now apply filter_ascending
          | repeat constructor; simpl; tauto |].
        intros x Hx [-> | []]. contradiction.
      * exact Hasc.
      * intros x. rewrite sortAscending_In, in_app_iff.
        unfold rest. rewrite filter_out_In. simpl.
        destruct (Nat.eq_dec x dim) as [-> | Hne]; intuition congruence.
    + assert (Hlt : (length sel < 4)%nat) by tauto.
      rewrite (toggleDimension_add sel dim Hout Hlt).
      assert (Hin : In dim (sortAscending (sel ++ [dim])))
        by (apply sortAscending_In, in_or_app; right; now left).
      rewrite (toggleDimension_remove _ dim Hin).
      apply ascending_unique.
      * apply filter_ascending, sortAscending_ascending.
        apply NoDup_app;
          [now apply ascending_NoDup
          | repeat constructor; simpl; tauto |].
        intros x Hx [-> | []]. contradiction.
      * exact Hasc.
      * intros x. rewrite filter_out_In, sortAscending_In, in_app_iff. simpl.
        destruct (Nat.eq_dec x dim) as [-> | Hne]; intuition congruence.
  - intros Hout Hge. now apply toggleDimension_full.
Qed.

Lemma toggleDimension_twice_witness :
  ascending [2; 32; 128; 512]%nat
  /\ (length [2; 32; 128; 512]%nat <= 4)%nat
  /\ toggleDimension (toggleDimension [2; 32; 128; 512]%nat 32) 32
     = [2; 32; 128; 512]%nat
  /\ toggleDimension [2; 32; 128; 512]%nat 64 = [2; 32; 128; 512]%nat
  /\ toggleDimension (toggleDimension [2; 32; 128]%nat 64) 64
     = [2; 32; 128]%nat.
Proof.
  assert (Ha : ascending [2; 32; 128; 512]%nat).
  { unfold ascending. repeat constructor; lia. }
  assert (Hl : (length [2; 32; 128; 512]%nat <= 4)%nat) by (simpl; lia).
  assert (Ha' : ascending [2; 32; 128]%nat).
  { unfold ascending. repeat constructor; lia. }
  assert (Hl' : (length [2; 32; 128]%nat <= 4)%nat) by (simpl; lia).
  split; [exact Ha |]. split; [exact Hl |].
  split; [| split].
  - apply (toggleDimension_twice [2; 32; 128; 512]%nat 32 Ha Hl).
    left. simpl. tauto.
  - apply (toggleDimension_twice [2; 32; 128; 512]%nat 64 Ha Hl).
    + simpl. intros H. decompose [or] H; try discriminate; contradiction.
    + simpl. lia.
  - apply (toggleDimension_twice [2; 32; 128]%nat 64 Ha' Hl').
    right. simpl. lia.
Defined.

(** X3.  On two vectors of the same length the distance does not depend
    on the order of its arguments; a unit vector is at distance 0 from
    itself and at distance 2 from its opposite. *)
Theorem distance_symmetric (xs ys : list R) :
  length xs = length ys ->
  calculateCosineDistance (map Fin xs) (map Fin ys)
  = calculateCosineDistance (map Fin ys) (map Fin xs)
  /\ (sumSquares xs = 1 ->
      calculateCosineDistance (map Fin xs) (map Fin xs) = Normal (Fin 0)
      /\ calculateCosineDistance (map Fin xs) (map Fin (map Ropp xs))
         = Normal (Fin 2)).
Proof.
  intros Hlen. split.
  - rewrite !distance_value, Hlen, Nat.leb_refl, (dotR_comm xs ys).
    reflexivity.
  - intros Hunit. split.
    + rewrite distance_value, Nat.leb_refl, dotR_self, Hunit.
      do 2 f_equal. lra.
    + rewrite distance_value, length_map, Nat.leb_refl, dotR_opposite, Hunit.
      do 2 f_equal. lra.
Qed.

Lemma distance_symmetric_witness :
  length [1; 0] = length [0; 1]
  /\ calculateCosineDistance (map Fin [1; 0]) (map Fin [0; 1])
     = calculateCosineDistance (map Fin [0; 1]) (map Fin [1; 0]).
Proof.
  split; [reflexivity |].
  apply (distance_symmetric [1; 0] [0; 1]). reflexivity.
Defined.

(** X4.  Every dimension that the run analyses has a colour of its own,
    different from the colours of the others and from the grey
    fallback; any other dimension is drawn in the fallback grey. *)
Theorem every_analysed_dimension_has_its_colour (d1 d2 : nat) :
  (In d1 dimensions -> getDimensionColor d1 <> "#6B7280"%string)
  /\ (~ In d1 dimensions -> getDimensionColor d1 = "#6B7280"%string)
  /\ (In d1 dimensions -> In d2 dimensions ->
      getDimensionColor d1 = getDimensionColor d2 -> d1 = d2).
Proof.
  split; [| split].
  - intros H. unfold dimensions in H. simpl in H.
    repeat (destruct H as [<- | H]; [vm_compute; discriminate |]).
    destruct H.
  - intros H. unfold getDimensionColor, colorMap. cbn [lookup].
    repeat match goal with
           | |- context [(d1 =? ?k)%nat] =>
               destruct (Nat.eqb_spec d1 k) as [E | _];
               [exfalso; apply H; subst d1; unfold dimensions; simpl; tauto |]
           end.
    reflexivity.
  - intros H1 H2. unfold dimensions in H1, H2. simpl in H1, H2.
    repeat (destruct H1 as [<- | H1]; [| ]); try destruct H1;
      repeat (destruct H2 as [<- | H2]; [| ]); try destruct H2;
      vm_compute; intros E; try reflexivity; discriminate E.
Qed.

(** X7.  A run that returns has processed its dimensions in order: the
    records carry the dimensions of the list, one after the other, each
    with the theoretical standard deviation [1 / sqrt dim] (and so does
    the chart of standard deviations); the samples stored under a
    dimension of the list are as many as its sample size asks for, each
    with an original distance in [0, 2] or [NaN]; nothing is stored
    under any other dimension. *)
Theorem run_result_is_keyed_by_dimension
  (dims : list nat) (sampleSizeOf : nat -> Z) (t t' : tape)
  (d : SimulationData) :
  simulate dims sampleSizeOf t = Some (Normal d, t') ->
  dataDimensions d = dims
  /\ map dimension (statistics d) = dims
  /\ map rowDimension (stdDevData d) = dims
  /\ map theoreticalStdDev (stdDevData d)
     = map (fun dim => JS.div (Fin 1) (JS.sqrt (JS.of_nat dim))) dims
  /\ (forall dim, In dim dims ->
        exists smp,
          lookup (distributionSamples d) dim = Some smp
          /\ length smp = Z.to_nat (sampleSizeOf dim)
          /\ Forall (fun s => inRange (originalDistance s)) smp)
  /\ (forall dim, ~ In dim dims -> lookup (distributionSamples d) dim = None).
Proof.
  intros E.
  destruct (simulate_structure dims sampleSizeOf _ _ _ E)
    as (Hdims & Hmap & Hth & Hin & Hout).
  cbn [fst snd] in *. rewrite firstn_all in *.
  split; [exact Hdims |]. split; [exact Hmap |].
  split; [unfold stdDevData; rewrite map_map; exact Hmap |].
  split.
  { unfold stdDevData. rewrite map_map. cbn [theoreticalStdDev].
    rewrite <- Hmap, map_map. apply map_ext_in.
    intros stats Hs. rewrite Forall_forall in Hth. now apply Hth. }
  split; [exact Hin | exact Hout].
Qed.

(** X8.  On a tape of draws from [0, 1) that holds at least four
    non-zero draws for every coordinate of every sample, the run
    returns, having consumed exactly that many non-zero draws; with the
    constants of the code, [generateSyntheticData] then stores the data
    and clears the loading flag. *)
Theorem run_returns_on_enough_draws
  (dims : list nat) (sampleSizeOf : nat -> Z) (t : tape) :
  uniform t ->
  (drawsNeeded dims sampleSizeOf <= nonzeroCount t)%nat ->
  exists (d : SimulationData) (t' : tape),
    simulate dims sampleSizeOf t = Some (Normal d, t')
    /\ (nonzeroCount t' + drawsNeeded dims sampleSizeOf = nonzeroCount t)%nat
    /\ (dims = dimensions -> sampleSizeOf = getAdjustedSampleSize ->
        generateSyntheticData t = Some (mkView (Some d) false)).
Proof.
  intros Hu Hc.
  destruct (simulate_runs dims sampleSizeOf t Hu Hc)
    as (d & t' & E & _ & _ & Hn).
  exists d, t'. split; [exact E |]. split; [exact Hn |].
  intros -> ->. unfold generateSyntheticData. now rewrite E.
Qed.

Lemma run_returns_on_enough_draws_witness :
  uniform (halves 4)
  /\ (drawsNeeded [1%nat] (fun _ => 1%Z) <= nonzeroCount (halves 4))%nat
  /\ exists (d : SimulationData) (t' : tape),
       simulate [1%nat] (fun _ => 1%Z) (halves 4) = Some (Normal d, t')
       /\ (nonzeroCount t' + drawsNeeded [1%nat] (fun _ => 1%Z)
           = nonzeroCount (halves 4))%nat.
Proof.
  assert (Hu : uniform (halves 4)) by apply uniform_halves.
  assert (Hc : (drawsNeeded [1%nat] (fun _ => 1%Z)
                <= nonzeroCount (halves 4))%nat)
    by (rewrite nonzeroCount_halves; unfold drawsNeeded; simpl; lia).
  split; [exact Hu |]. split; [exact Hc |].
  destruct (run_returns_on_enough_draws [1%nat] (fun _ => 1%Z) (halves 4)
              Hu Hc) as (d & t' & E & Hn & _).
  exists d, t'. split; [exact E | exact Hn].
Defined.

Lemma run_result_is_keyed_by_dimension_witness :
  exists (d : SimulationData) (t' : tape),
    simulate [1%nat] (fun _ => 1%Z) (halves 4) = Some (Normal d, t')
    /\ map dimension (statistics d) = [1%nat].
Proof.
  assert (Hu : uniform (halves 4)) by apply uniform_halves.
  assert (Hc : (drawsNeeded [1%nat] (fun _ => 1%Z)
                <= nonzeroCount (halves 4))%nat)
    by (rewrite nonzeroCount_halves; unfold drawsNeeded; simpl; lia).
  destruct (simulate_runs [1%nat] (fun _ => 1%Z) (halves 4) Hu Hc)
    as (d & t' & E & _).
  exists d, t'. split; [exact E |].
  apply (run_result_is_keyed_by_dimension _ _ _ _ _ E).
Defined.

(** X9.  [generateHistogramData] returns the empty object while there
    is no data; it fails with a [TypeError] as soon as one selected
    dimension has no samples in the data; otherwise it returns, for
    every selected dimension, the histogram of the samples of that
    dimension, which always has 40 bins, and nothing for any other
    dimension. *)
Theorem histograms_of_a_selection
  (d : SimulationData) (sel : list nat) (normalized loading : bool) :
  generateHistogramData (mkView None loading) sel normalized = Normal []
  /\ ((exists k, In k sel /\ lookup (distributionSamples d) k = None) ->
      generateHistogramData (mkView (Some d) loading) sel normalized
      = Abrupt TypeError)
  /\ ((forall k, In k sel -> lookup (distributionSamples d) k <> None) ->
      exists h,
        generateHistogramData (mkView (Some d) loading) sel normalized
        = Normal h
        /\ (forall k, In k sel ->
              exists smp,
                lookup (distributionSamples d) k = Some smp
                /\ lookup h k = Some (Histogram.ofSamples normalized smp)
                /\ length (Histogram.ofSamples normalized smp) = 40%nat)
        /\ (forall k, ~ In k sel -> lookup h k = None)).
Proof.
  split; [reflexivity |]. split.
  - intros Hmiss. unfold generateHistogramData. cbn [data].
    now apply forEachDimension_missing.
  - intros Hall. unfold generateHistogramData. cbn [data].
    destruct (forEachDimension_present d normalized sel Hall [])
      as (h & E & Hin & Hout).
    exists h. split; [exact E |]. split.
    + intros k Hk. destruct (Hin k Hk) as (smp & El & Eh).
      exists smp. split; [exact El |]. split; [exact Eh |].
      apply ofSamples_length.
    + intros k Hk. now rewrite (Hout k Hk).
Qed.

(** X10.  After a run that returns, the histograms of any selection
    taken from the dimensions of the run are built without error. *)
Theorem histograms_after_a_run
  (dims : list nat) (sampleSizeOf : nat -> Z) (t t' : tape)
  (d : SimulationData) (sel : list nat) (normalized : bool) :
  simulate dims sampleSizeOf t = Some (Normal d, t') ->
  (forall k, In k sel -> In k dims) ->
  exists h,
    generateHistogramData (mkView (Some d) false) sel normalized = Normal h
    /\ forall k, In k sel ->
         exists smp,
           lookup (distributionSamples d) k = Some smp
           /\ length smp = Z.to_nat (sampleSizeOf k)
           /\ lookup h k = Some (Histogram.ofSamples normalized smp).
Proof.
  intros E Hsel.
  destruct (simulate_structure dims sampleSizeOf _ _ _ E)
    as (_ & _ & _ & Hin & _).
  cbn [fst snd] in Hin. rewrite firstn_all in Hin.
  assert (Hall : forall k, In k sel ->
                           lookup (distributionSamples d) k <> None).
  { intros k Hk. destruct (Hin k (Hsel k Hk)) as (smp & El & _).
    now rewrite El. }
  unfold generateHistogramData. cbn [data].
  destruct (forEachDimension_present d normalized sel Hall [])
    as (h & Eh & Hh & _).
  exists h. split; [exact Eh |].
  intros k Hk. destruct (Hh k Hk) as (smp & El & Ek).
  destruct (Hin k (Hsel k Hk)) as (smp' & El' & Hlen & _).
  exists smp. rewrite El in El'. injection El' as <-. auto.
Qed.

Lemma histograms_after_a_run_witness :
  exists (d : SimulationData) (t' : tape),
    simulate [1%nat] (fun _ => 1%Z) (halves 4) = Some (Normal d, t')
    /\ exists h,
         generateHistogramData (mkView (Some d) false) [1%nat] true
         = Normal h.
Proof.
  assert (Hu : uniform (halves 4)) by apply uniform_halves.
  assert (Hc : (drawsNeeded [1%nat] (fun _ => 1%Z)
                <= nonzeroCount (halves 4))%nat)
    by (rewrite nonzeroCount_halves; unfold drawsNeeded; simpl; lia).
  destruct (simulate_runs [1%nat] (fun _ => 1%Z) (halves 4) Hu Hc)
    as (d & t' & E & _).
  exists d, t'. split; [exact E |].
  destruct (histograms_after_a_run _ _ _ _ _ [1%nat] true E
              (fun k Hk => Hk)) as (h & Eh & _).
  now exists h.
Defined.

(** X11.  The draws that are exactly 0 never influence a run: on a tape
    and on the same tape without its zeros, the sampler returns the same
    vector and the run completes with the same data (or starves on
    both); so [generateSyntheticData] leaves the same component
    state. *)
Theorem zero_draws_are_invisible
  (dims : list nat) (sampleSizeOf : nat -> Z) (dimension : nat) (t : tape) :
  match generateRandomUnitVector dimension t,
        generateRandomUnitVector dimension (dropZeros t) with
  | Some (vector1, _), Some (vector2, _) => vector1 = vector2
  | None, None => True
  | _, _ => False
  end
  /\ match simulate dims sampleSizeOf t,
           simulate dims sampleSizeOf (dropZeros t) with
     | Some (c1, _), Some (c2, _) => c1 = c2
     | None, None => True
     | _, _ => False
     end
  /\ generateSyntheticData t = generateSyntheticData (dropZeros t).
Proof.
  assert (Heq : dropZeros t = dropZeros (dropZeros t))
    by (symmetry; apply dropZeros_idem).
  split; [| split].
  - pose proof (zeroBlind_generate dimension t (dropZeros t) Heq) as H.
    destruct (generateRandomUnitVector dimension t) as [[c1 r1] |],
             (generateRandomUnitVector dimension (dropZeros t))
               as [[c2 r2] |]; tauto.
  - pose proof (zeroBlind_simulate dims sampleSizeOf t (dropZeros t) Heq)
      as H.
    destruct (simulate dims sampleSizeOf t) as [[c1 r1] |],
             (simulate dims sampleSizeOf (dropZeros t)) as [[c2 r2] |];
      tauto.
  - unfold generateSyntheticData.
    pose proof (zeroBlind_simulate dimensions getAdjustedSampleSize
                  t (dropZeros t) Heq) as H.
    destruct (simulate dimensions getAdjustedSampleSize t)
      as [[c1 r1] |],
      (simulate dimensions getAdjustedSampleSize (dropZeros t))
      as [[c2 r2] |]; try tauto.
    destruct H as [-> _]. reflexivity.
Qed.

(** X13.  In a dimension of at most 8 every normalized distance lies in
    [-2, 4), so the histogram of the normalized distances of a pass of
    finite distances loses no sample and has area 1.  From dimension 9
    on the normalized value of the distance 2 is at least 4 and is
    counted in no bin. *)
Theorem normalized_histogram_keeps_low_dimensions
  (dim : nat) (ds : list R) :
  ds <> [] ->
  ((dim <= 8)%nat ->
   integral (Fin (binWidth (-2) 4 40))
     (Histogram.ofSamples true
        (samples (recordAll dim (map Fin ds) emptyPass)))
   = Fin 1)
  /\ ((9 <= dim)%nat ->
      forall bins,
        Histogram.countValue (Fin (-2)) (Fin (binWidth (-2) 4 40)) 40 bins
          (normalize (Fin 2) dim)
        = bins).
Proof.
  intros Hne. split.
  - intros Hd. unfold Histogram.ofSamples.
    rewrite recorded_samples, map_normalizedDistance, length_map.
    set (vs := map (normR dim) (map clampR ds)).
    replace (length ds) with (length vs)
      by (unfold vs; now rewrite !length_map).
    apply integral_one; [lra | lia | |].
    + unfold vs. destruct ds; [contradiction | discriminate].
    + unfold vs. apply Forall_forall. intros v Hv.
      apply in_map_iff in Hv as (c & <- & Hc).
      apply in_map_iff in Hc as (d & <- & _).
      apply normR_range; [exact Hd | apply clamp_range].
  - intros Hd bins. rewrite normalize_fin.
    apply countValue_out; [lra | lia |].
    apply binOf_domain.
    assert (H9 : 9 <= INR dim).
    { replace 9 with (INR 9) by (simpl; lra). now apply le_INR. }
    assert (H3 : 3 <= sqrt (INR dim)).
    { replace 3 with (sqrt 9)
        by (replace 9 with (3 * 3) by lra; apply sqrt_square; lra).
      now apply sqrt_le_1_alt. }
    unfold alpha. destruct (Nat.leb_spec dim 3); [lia |]. lra.
Qed.

Lemma normalized_histogram_keeps_low_dimensions_witness :
  [0; 2] <> ([] : list R) /\ (8 <= 8)%nat
  /\ integral (Fin (binWidth (-2) 4 40))
       (Histogram.ofSamples true
          (samples (recordAll 8 (map Fin [0; 2]) emptyPass)))
     = Fin 1.
Proof.
  assert (Hne : [0; 2] <> ([] : list R)) by discriminate.
  split; [exact Hne |]. split; [lia |].
  apply (normalized_histogram_keeps_low_dimensions 8 [0; 2] Hne). lia.
Defined.

(** X14.  A distance of 2 or more is stored as 2 and then falls outside
    the domain [0, 2) of the histogram of the original distances: the
    area of that histogram is the fraction of the distances of the pass
    that are below 2. *)
Theorem original_histogram_drops_distance_two (dim : nat) (ds : list R) :
  ds <> [] ->
  integral (Fin (binWidth 0 2 40))
    (Histogram.ofSamples false
       (samples (recordAll dim (map Fin ds) emptyPass)))
  = Fin (INR (length (filter (fun d => if Rlt_dec d 2 then true else false)
                             ds))
         / INR (length ds))
  /\ (forall d st, 2 <= d ->
        originalDistance (last (samples (record dim (Fin d) st))
                               (mkSample NaN NaN))
        = Fin 2)
  /\ (forall bins,
        Histogram.countValue (Fin 0) (Fin (binWidth 0 2 40)) 40 bins (Fin 2)
        = bins).
Proof.
  intros Hne. split; [| split].
  - unfold Histogram.ofSamples.
    rewrite recorded_samples, map_originalDistance, length_map.
    set (cs := map clampR ds).
    replace (length ds) with (length cs) by (unfold cs; apply length_map).
    rewrite integral_fraction;
      [| lra | lia | unfold cs; destruct ds; [contradiction | discriminate]].
    unfold cs. now rewrite filter_clamped_length, length_map.
  - intros d st Hd. unfold record. cbn [samples].
    rewrite last_last. cbn [originalDistance].
    rewrite clampDistance_fin. f_equal.
    unfold Rmax, Rmin. destruct (Rle_dec 2 d); destruct (Rle_dec 0 _); lra.
  - intros bins. apply countValue_out; [lra | lia |].
    apply binOf_domain. lra.
Qed.

Lemma original_histogram_drops_distance_two_witness :
  [1; 3] <> ([] : list R)
  /\ integral (Fin (binWidth 0 2 40))
       (Histogram.ofSamples false
          (samples (recordAll 2 (map Fin [1; 3]) emptyPass)))
     = Fin (INR (length (filter
                           (fun d => if Rlt_dec d 2 then true else false)
                           [1; 3]))
            / INR (length [1; 3])).
Proof.
  assert (Hne : [1; 3] <> ([] : list R)) by discriminate.
  split; [exact Hne |].
  apply (original_histogram_drops_distance_two 2 [1; 3] Hne).
Defined.

(** X15.  The histogram of the formula-based component clamps every
    value into its domain before binning it, so no finite value is
    dropped: the area is 1 for any collection of finite samples that is
    not empty; a value of 1.999 or more is counted in the last bin, a
    value of 0 or less in the first; only [NaN] is left out. *)
Theorem formulaic_histogram_counts_every_value
  (normalized : bool) (pairs : list (R * R)) :
  pairs <> [] ->
  integral (Fin (binWidth 0 2 40))
    (Formulaic.ofSamples normalized
       (map (fun p => mkSample (Fin (fst p)) (Fin (snd p))) pairs))
  = Fin 1
  /\ (forall v bins, 1.999 <= v ->
        Formulaic.countValue (Fin 0) (Fin 2) (Fin (binWidth 0 2 40)) 40 bins
          (Fin v)
        = JS.set bins 39 (JS.add (JS.get bins 39) (Fin 1)))
  /\ (forall v bins, v <= 0 ->
        Formulaic.countValue (Fin 0) (Fin 2) (Fin (binWidth 0 2 40)) 40 bins
          (Fin v)
        = JS.set bins 0 (JS.add (JS.get bins 0) (Fin 1)))
  /\ (forall bins,
        Formulaic.countValue (Fin 0) (Fin 2) (Fin (binWidth 0 2 40)) 40 bins
          NaN
        = bins).
Proof.
  intros Hne. split; [| split; [| split]].
  - assert (Hint : forall vs : list R,
               vs <> [] ->
               integral (Fin (binWidth 0 2 40))
                 (Formulaic.build (Fin 0) (Fin 2) 40 (map Fin vs) (length vs))
               = Fin 1).
    { intros vs Hvs. rewrite formulaic_build_fin by lia.
      replace (length vs) with (length (map (clampInto 0 2) vs))
        by apply length_map.
      apply integral_one; [lra | lia | |].
      - destruct vs; [contradiction | discriminate].
      - apply Forall_forall. intros v Hv.
        apply in_map_iff in Hv as (x & <- & _).
        apply clampInto_domain. lra. }
    unfold Formulaic.ofSamples. rewrite length_map.
    destruct normalized.
    + rewrite map_map. cbn [normalizedDistance].
      rewrite <- (map_map snd Fin), <- (length_map snd pairs).
      apply Hint. destruct pairs; [contradiction | discriminate].
    + rewrite map_map. cbn [originalDistance].
      rewrite <- (map_map fst Fin), <- (length_map fst pairs).
      apply Hint. destruct pairs; [contradiction | discriminate].
  - intros v bins Hv. rewrite formulaic_countValue_fin.
    now apply (countValue_in 0 2 40 bins _ 39%nat);
      [lra | lia | apply binOf_last].
  - intros v bins Hv. rewrite formulaic_countValue_fin.
    now apply (countValue_in 0 2 40 bins _ 0%nat);
      [lra | lia | apply binOf_first].
  - intros bins. reflexivity.
Qed.

Lemma formulaic_histogram_counts_every_value_witness :
  [(3, 5)] <> ([] : list (R * R))
  /\ integral (Fin (binWidth 0 2 40))
       (Formulaic.ofSamples true
          (map (fun p => mkSample (Fin (fst p)) (Fin (snd p))) [(3, 5)]))
     = Fin 1.
Proof.
  assert (Hne : [(3, 5)] <> ([] : list (R * R))) by discriminate.
  split; [exact Hne |].
  apply (formulaic_histogram_counts_every_value true [(3, 5)] Hne).
Defined.

(** X16.  The formula-based generator reads exactly two draws for each
    sample, zeros included: on a tape of at least
    [2 * count * length dims] draws it returns with the rest of the
    tape, the given dimensions, the statistics of the formula, and under
    every dimension [count] samples whose original distances lie in
    [0, 2] (or are [NaN]); the ratio 1 that it states is the ratio of
    its two standard deviations in every dimension [dim >= 1]. *)
Theorem formulaic_data (count : nat) (dims : list nat) (t : tape) :
  (2 * count * length dims <= length t)%nat ->
  exists d,
    Formulaic.generate count dims t
    = Some (Normal d, skipn (2 * count * length dims) t)
    /\ dataDimensions d = dims
    /\ statistics d = map Formulaic.statisticsOf dims
    /\ (forall dim, In dim dims ->
          exists smp,
            lookup (distributionSamples d) dim = Some smp
            /\ length smp = count
            /\ Forall (fun s => inRange (originalDistance s)) smp)
    /\ (forall dim, ~ In dim dims ->
          lookup (distributionSamples d) dim = None)
    /\ (forall dim, (1 <= dim)%nat ->
          JS.div (originalStd (Formulaic.statisticsOf dim))
                 (theoreticalStd (Formulaic.statisticsOf dim))
          = ratio (Formulaic.statisticsOf dim)).
Proof.
  intros Hlen.
  destruct (formulaic_forEachDimension count dims [] t Hlen)
    as (acc & E & Hin & Hout).
  eexists. unfold Formulaic.generate, bind. rewrite E. unfold ret.
  split; [reflexivity |].
  cbn [dataDimensions statistics distributionSamples].
  split; [reflexivity |]. split; [reflexivity |].
  split; [exact Hin |]. split; [intros dim Hd; now rewrite (Hout dim Hd) |].
  intros dim Hd. unfold Formulaic.statisticsOf, JS.of_nat.
  cbn [originalStd theoreticalStd ratio].
  assert (Hs : 0 < sqrt (INR dim)) by (apply sqrt_lt_R0, lt_0_INR; lia).
  rewrite sqrt_fin by apply pos_INR.
  rewrite (div_fin 1) by lra.
  rewrite div_fin by (apply Rgt_not_eq, Rdiv_lt_0_compat; lra).
  f_equal. field. lra.
Qed.

Lemma formulaic_data_witness :
  (2 * 1 * length [2%nat] <= length (halves 2))%nat
  /\ exists d,
       Formulaic.generate 1 [2%nat] (halves 2)
       = Some (Normal d, skipn (2 * 1 * length [2%nat]) (halves 2))
       /\ dataDimensions d = [2%nat].
Proof.
  assert (Hl : (2 * 1 * length [2%nat] <= length (halves 2))%nat)
    by (simpl; lia).
  split; [exact Hl |].
  destruct (formulaic_data 1 [2%nat] (halves 2) Hl) as (d & E & Hd & _).
  exists d. split; [exact E | exact Hd].
Defined.

(** X17.  The formula-based generator takes the logarithm of its first
    draw as it comes.  When that draw is 0, in a dimension [dim >= 1],
    the variate is infinite and the one sample stored for the two draws
    holds the end of the range picked by the sign of [cos (2 pi u2)]:
    the distance 2 when it is positive, the distance 0 when it is
    negative; two draws of 0 give the distance 2.  [normalRandom]
    instead skips a draw of 0. *)
Theorem formulaic_zero_draw (dim : nat) (u2 : R) (t : tape) :
  (1 <= dim)%nat ->
  (0 < cos (2 * PI * u2) ->
   Formulaic.samplesFor 1 dim (0 :: u2 :: t)
   = Some (Normal [mkSample (Fin 2) (normalize (Fin 2) dim)], t))
  /\ (cos (2 * PI * u2) < 0 ->
      Formulaic.samplesFor 1 dim (0 :: u2 :: t)
      = Some (Normal [mkSample (Fin 0) (normalize (Fin 0) dim)], t))
  /\ Formulaic.samplesFor 1 dim (0 :: 0 :: t)
     = Some (Normal [mkSample (Fin 2) (normalize (Fin 2) dim)], t)
  /\ normalRandom (0 :: u2 :: t) = normalRandom (u2 :: t).
Proof.
  intros Hd.
  assert (Hs : 0 < sqrt (INR dim)) by (apply sqrt_lt_R0, lt_0_INR; lia).
  assert (Hsd : 0 < 1 / sqrt (INR dim)) by (apply Rdiv_lt_0_compat; lra).
  assert (Hrun : forall u,
             Formulaic.samplesFor 1 dim (0 :: u :: t)
             = Some (Normal [mkSample (formulaDistance dim 0 u)
                               (normalize (formulaDistance dim 0 u) dim)], t))
    by reflexivity.
  assert (Hpos : forall u, 0 < cos (2 * PI * u) ->
                           formulaDistance dim 0 u = Fin 2).
  { intros u Hc. unfold formulaDistance, JS.of_nat.
    rewrite boxMuller_zero, (sgn_pos _ Hc).
    rewrite sqrt_fin by apply pos_INR. rewrite div_fin by lra.
    cbn [JS.inf_of JS.mul]. rewrite (sgn_pos _ Hsd).
    cbn [JS.inf_of JS.add]. unfold clampDistance. cbn [JS.min JS.leb].
    rewrite max_fin. f_equal. unfold Rmax. destruct (Rle_dec 0 2); lra. }
  assert (Hneg : forall u, cos (2 * PI * u) < 0 ->
                           formulaDistance dim 0 u = Fin 0).
  { intros u Hc. unfold formulaDistance, JS.of_nat.
    rewrite boxMuller_zero, (sgn_neg _ Hc).
    rewrite sqrt_fin by apply pos_INR. rewrite div_fin by lra.
    cbn [JS.inf_of JS.mul]. rewrite (sgn_neg (- (1 / sqrt (INR dim)))) by lra.
    reflexivity. }
  split; [| split; [| split]].
  - intros Hc. now rewrite Hrun, (Hpos u2 Hc).
  - intros Hc. now rewrite Hrun, (Hneg u2 Hc).
  - rewrite Hrun, (Hpos 0); [reflexivity |].
    rewrite Rmult_0_r, cos_0. lra.
  - unfold normalRandom, bind. now rewrite redraw_zero.
Qed.

Lemma formulaic_zero_draw_witness :
  (1 <= 2)%nat
  /\ Formulaic.samplesFor 1 2 [0; 0]
     = Some (Normal [mkSample (Fin 2) (normalize (Fin 2) 2)], []).
Proof.
  split; [lia |].
  apply (formulaic_zero_draw 2 0 []). lia.
Defined.

(** X18.  The sample sizes of the code are multiples of the batch size
    and grow with the dimension: a larger dimension never gets fewer
    samples, every batch of a dimension holds exactly 100 samples, and
    there are [sampleSize / 100] of them. *)
Theorem sample_sizes_fill_their_batches (dim dim' : nat) :
  ((dim <= dim')%nat ->
   (getAdjustedSampleSize dim <= getAdjustedSampleSize dim')%Z)
  /\ (getAdjustedSampleSize dim mod batchSize = 0)%Z
  /\ batches (getAdjustedSampleSize dim)
     = (getAdjustedSampleSize dim / 100)%Z
  /\ (forall batch : nat,
        (Z.of_nat batch < batches (getAdjustedSampleSize dim))%Z ->
        currentBatchSize (getAdjustedSampleSize dim) batch = 100%Z).
Proof.
  assert (Hvals : forall k,
             getAdjustedSampleSize k = 10000%Z
             \/ getAdjustedSampleSize k = 20000%Z
             \/ getAdjustedSampleSize k = 50000%Z).
  { intros k. unfold getAdjustedSampleSize.
    destruct (k <=? 32)%nat; [auto |]. destruct (k <=? 256)%nat; auto. }
  assert (Hb : batches (getAdjustedSampleSize dim)
               = (getAdjustedSampleSize dim / 100)%Z).
  { rewrite batches_of_positive
      by (destruct (Hvals dim) as [-> | [-> | ->]]; lia).
    destruct (Hvals dim) as [-> | [-> | ->]]; reflexivity. }
  split; [| split; [| split; [exact Hb |]]].
  - intros Hle. unfold getAdjustedSampleSize.
    destruct (Nat.leb_spec dim 32); destruct (Nat.leb_spec dim' 32);
      destruct (Nat.leb_spec dim 256); destruct (Nat.leb_spec dim' 256);
      lia.
  - unfold batchSize. destruct (Hvals dim) as [-> | [-> | ->]]; reflexivity.
  - intros batch Hlt. rewrite Hb in Hlt.
    apply batch_sizes; [| exact Hlt].
    destruct (Hvals dim) as [-> | [-> | ->]]; lia.
Qed.
